(** * Verifying-Image-Authenticity: the LSB watermark codec of [main.py]

    A shallow embedding of the secure / authenticate pipelines of the
    service and of the two bit-packing helpers they share, followed by the
    properties of the codec.

    Conventions of the embedding:
    - a Python [int] is a [Z]; a [bytes] object is a [list Z] of values in
      [0,256); a list of bits is a [list Z] of values 0 and 1;
    - a NumPy [uint8] array of shape (H, W, 3) is its shape together with
      its row-major buffer of pixels, which is how NumPy stores it and what
      [reshape(-1, 3)] exposes;
    - an exception is a value of [exn]; code that can raise returns a
      [result];
    - PIL (decode / encode of image containers), [hashlib.sha256] and
      [base64.b64encode] are external libraries: they are the methods of
      the classes [ImageLib], [HashLib] and [Base64Lib]. *)

From Stdlib Require Import ZArith QArith String Ascii Lia.
From stdpp Require Import base list numbers.

Local Open Scope Z_scope.

(** ** Exceptions and fallible computations *)

Inductive exn : Type :=
  | HTTPException (status_code : Z) (detail : string)
  | IndexError
  | ValueError
  | ImageError (msg : string).

Inductive result (A : Type) : Type :=
  | Ok (a : A)
  | Raise (e : exn).

Arguments Ok {A} a.
Arguments Raise {A} e.

#[global] Instance result_ret : MRet result := fun _ a => Ok a.

#[global] Instance result_bind : MBind result := fun _ _ k c =>
  match c with
  | Ok a => k a
  | Raise e => Raise e
  end.

(** ** Python sequences *)

(** [l[i]] for an index produced by [range]: out of range raises. *)
Definition getitem {A : Type} (l : list A) (i : nat) : result A :=
  match l !! i with
  | Some x => Ok x
  | None => Raise IndexError
  end.

(** [l[:n]], also for a negative [n]. *)
Definition slice_to {A : Type} (n : Z) (l : list A) : list A :=
  if n <? 0 then take (Z.to_nat (Z.of_nat (length l) + n)) l
  else take (Z.to_nat n) l.

(** [l[n:]], also for a negative [n]. *)
Definition slice_from {A : Type} (n : Z) (l : list A) : list A :=
  if n <? 0 then drop (Z.to_nat (Z.of_nat (length l) + n)) l
  else drop (Z.to_nat n) l.

(** [range(n)] and [range(0, n, step)]. *)
Definition range (n : Z) : list nat := seq 0 (Z.to_nat n).

Definition range_step (n : nat) (step : nat) : list nat :=
  map (fun k => (k * step)%nat) (seq 0 ((n + step - 1) / step)%nat).

(** [for i in idxs: s = body(i, s)], stopping at the first exception. *)
Fixpoint for_each {S : Type} (body : nat -> S -> result S) (idxs : list nat)
    (s : S) : result S :=
  match idxs with
  | [] => Ok s
  | i :: rest => s' ← body i s; for_each body rest s'
  end.

(** [bytearray.append]: the value must be in [range(256)]. *)
Definition bytearray_append (b : list Z) (byte : Z) : result (list Z) :=
  if (0 <=? byte) && (byte <? 256) then Ok (b ++ [byte]) else Raise ValueError.

(** ** Constants *)

Definition HASH_BITS : Z := 256.
Definition NUM_PIXELS : Z := HASH_BITS.
Definition APPENDED_BYTES : Z := HASH_BITS / 8.
Definition MIN_BITS : Z := 6144.
Definition MIN_BYTES : Z := MIN_BITS / 8.

(** ** Bit packing *)

(** The inner loop of [pack_bits_to_bytes]:
    [byte = (byte << 1) | int(bit_list[i + j])]. *)
Definition pack_bit (bit_list : list Z) (i : nat) (j : nat) (byte : Z)
    : result Z :=
  bit ← getitem bit_list (i + j);
  Ok (Z.lor (Z.shiftl byte 1) bit).

(** The outer loop body: build one byte from the eight bits at [i], append. *)
Definition pack_group (bit_list : list Z) (i : nat) (b : list Z)
    : result (list Z) :=
  byte ← for_each (pack_bit bit_list i) (range 8) 0;
  bytearray_append b byte.

Definition pack_bits_to_bytes (bit_list : list Z) : result (list Z) :=
  for_each (pack_group bit_list) (range_step (length bit_list) 8) [].

(** [[(byte >> i) & 1 for i in reversed(range(8))]]. *)
Definition byte_bits (byte : Z) : list Z :=
  map (fun i => Z.land (Z.shiftr byte (Z.of_nat i)) 1) (rev (range 8)).

Definition unpack_bytes_to_bits (bts : list Z) (expected_bits : option Z)
    : list Z :=
  let bits := flat_map byte_bits bts in
  match expected_bits with
  | Some n => slice_to n bits
  | None => bits
  end.

(** ** Pixels and arrays *)

(** One row of the [(-1, 3)] view: the channels R, G, B as Python ints. *)
Abbreviation pixel := (Z * Z * Z)%type.

(** A [uint8] array of shape [(H, W, 3)]: its shape and row-major buffer. *)
Record ndarray : Type := NdArray {
  shape : nat * nat;
  pixels : list pixel
}.

(** [arr.reshape(-1, 3).copy()] *)
Definition reshape_flat (arr : ndarray) : list pixel := pixels arr.

(** [flat.reshape(arr.shape)] *)
Definition reshape_as (flat : list pixel) (arr : ndarray) : ndarray :=
  {| shape := shape arr; pixels := flat |}.

(** [arr.tobytes()]: row-major, channels R, G, B within a pixel. *)
Definition tobytes (arr : ndarray) : list Z :=
  flat_map (fun p : pixel => let '(r, g, b) := p in [r; g; b]) (pixels arr).

(** [(r << 16) | (g << 8) | b] *)
Definition fold_rgb (p : pixel) : Z :=
  let '(r, g, b) := p in
  Z.lor (Z.lor (Z.shiftl r 16) (Z.shiftl g 8)) b.

(** [[(v >> 16) & 0xFF, (v >> 8) & 0xFF, v & 0xFF]] *)
Definition unfold_rgb (v : Z) : pixel :=
  (Z.land (Z.shiftr v 16) 255, Z.land (Z.shiftr v 8) 255, Z.land v 255).

(** [(val & ~1) | bit] *)
Definition set_lsb (val : Z) (bit : Z) : Z :=
  Z.lor (Z.land val (Z.lnot 1)) bit.

(** ** External libraries *)

(** The two PIL wrappers of [main.py]: decoding gives the array and the
    container format (["PNG"] when PIL reports none), or raises; encoding
    saves an array in a format. *)
Class ImageLib : Type := {
  image_bytes_to_rgb_array : list Z -> result (ndarray * string);
  rgb_array_to_image_bytes : ndarray -> string -> list Z
}.

(** [hashlib.sha256(m).digest()] *)
Class HashLib : Type := {
  sha256_digest : list Z -> list Z
}.

(** [base64.b64encode(b).decode("ascii")] *)
Class Base64Lib : Type := {
  b64encode : list Z -> string
}.

(** ** Strings of the responses *)

Definition ascii_lower (c : ascii) : ascii :=
  let n := nat_of_ascii c in
  if ((65 <=? n) && (n <=? 90))%nat then ascii_of_nat (n + 32) else c.

Fixpoint lower (s : string) : string :=
  match s with
  | EmptyString => EmptyString
  | String c s' => String (ascii_lower c) (lower s')
  end.

(** [str(e)] of a caught exception. *)
Definition exn_str (e : exn) : string :=
  match e with
  | HTTPException _ detail => detail
  | IndexError => "index out of range"
  | ValueError => "byte must be in range(0, 256)"
  | ImageError msg => msg
  end.

(** The uploaded file: its name and its bytes. A [string] holds 8-bit
    characters, so the names covered are those whose characters are all in
    Latin-1; the framework encodes response headers in Latin-1, and a
    header built from any other name is outside this embedding. *)
Record UploadFile : Type := {
  filename : string;
  file_data : list Z
}.

Record StreamingResponse : Type := {
  content : list Z;
  media_type : string;
  content_disposition : string
}.

Record JSONResponse : Type := {
  authentic : bool;
  message : string;
  authentication_percentage : Q;
  restored_image_b64 : string
}.

(** ** Rounding

    [round(x, ndigits)] on a float, for [ndigits >= 0]: the nearest
    multiple of [10^-ndigits] of the exact value of [x], ties to even.
    The only floats rounded by the service are [(k / 256) * 100] for an
    integer [0 <= k <= 256]; both float operations are exact on them, so
    the float is the rational [100 k / 256] and a [Q] holds it exactly. *)
Definition py_round (x : Q) (ndigits : Z) : Q :=
  let scale := 10 ^ ndigits in
  let n := Qnum x * scale in
  let d := Zpos (Qden x) in
  let q := n / d in
  let r := n mod d in
  let m := if 2 * r <? d then q
           else if d <? 2 * r then q + 1
           else if Z.even q then q else q + 1 in
  Qmake m (Z.to_pos scale).

(** ** [/secure] *)

(** Body of the embedding loop, on the state [(flat, original_lsb_bits)]. *)
Definition embed_step (digest_bits : list Z) (i : nat)
    (st : list pixel * list Z) : result (list pixel * list Z) :=
  let '(flat, original_lsb_bits) := st in
  p ← getitem flat i;
  let val := fold_rgb p in
  let lsb := Z.land val 1 in
  let original_lsb_bits := original_lsb_bits ++ [lsb] in
  bit ← getitem digest_bits i;
  let new_val := set_lsb val bit in
  Ok (<[i := unfold_rgb new_val]> flat, original_lsb_bits).

Definition embed (flat : list pixel) (digest_bits : list Z)
    : result (list pixel * list Z) :=
  for_each (embed_step digest_bits) (range NUM_PIXELS) (flat, []).

Definition secure_image `{ImageLib} `{HashLib} (file : UploadFile)
    : result StreamingResponse :=
  let data := file_data file in
  if Z.of_nat (length data) <? MIN_BYTES then
    Raise (HTTPException 400
      "Image too small to secure. Must have at least 6144 bits (256 pixels).")
  else
    '(arr, fmt) ← image_bytes_to_rgb_array data;
    let digest := sha256_digest (tobytes arr) in
    let digest_bits := unpack_bytes_to_bits digest (Some HASH_BITS) in
    let flat := reshape_flat arr in
    '(flat, original_lsb_bits) ← embed flat digest_bits;
    let new_arr := reshape_as flat arr in
    let new_image_bytes := rgb_array_to_image_bytes new_arr fmt in
    appended_bytes ← pack_bits_to_bytes original_lsb_bits;
    let final_bytes := new_image_bytes ++ appended_bytes in
    let mime := match fmt with
                | EmptyString => "image/png"%string
                | _ => String.append "image/" (lower fmt)
                end in
    Ok {| content := final_bytes;
          media_type := mime;
          content_disposition :=
            String.append "attachment; filename=secured_" (filename file) |}.

(** ** [/authenticate] *)

(** Body of the extraction loop. *)
Definition extract_step (flat : list pixel) (i : nat) (embedded_bits : list Z)
    : result (list Z) :=
  p ← getitem flat i;
  let val := fold_rgb p in
  Ok (embedded_bits ++ [Z.land val 1]).

Definition extract (flat : list pixel) : result (list Z) :=
  for_each (extract_step flat) (range NUM_PIXELS) [].

(** Body of the reconstruction loop. *)
Definition restore_step (original_bits : list Z) (i : nat) (flat : list pixel)
    : result (list pixel) :=
  p ← getitem flat i;
  let val := fold_rgb p in
  bit ← getitem original_bits i;
  let new_val := set_lsb val bit in
  Ok (<[i := unfold_rgb new_val]> flat).

Definition restore (flat : list pixel) (original_bits : list Z)
    : result (list pixel) :=
  for_each (restore_step original_bits) (range NUM_PIXELS) flat.

(** [sum(1 for a, b in zip(xs, ys) if a == b)] *)
Definition match_count (xs ys : list Z) : Z :=
  Z.of_nat (length (filter (fun ab : Z * Z => fst ab = snd ab) (zip xs ys))).

(** [(match_count / HASH_BITS) * 100] *)
Definition auth_percent (xs ys : list Z) : Q :=
  (inject_Z (match_count xs ys) / inject_Z HASH_BITS) * inject_Z 100.

(** The values compared at the end of [authenticate_image]. *)
Record auth_state : Type := {
  restored_arr : ndarray;
  restored_fmt : string;
  computed_bits : list Z;
  embedded_bits : list Z
}.

(** [authenticate_image] up to the comparison. *)
Definition authenticate_state `{ImageLib} `{HashLib} (file : UploadFile)
    : result auth_state :=
  let data := file_data file in
  if Z.of_nat (length data) <? MIN_BYTES + APPENDED_BYTES then
    Raise (HTTPException 400
      "Image too small or lacks appended data. Must have at least 6144 bits (256 pixels).")
  else
    let appended := slice_from (- APPENDED_BYTES) data in
    let image_bytes := slice_to (- APPENDED_BYTES) data in
    '(arr, fmt) ←
      match image_bytes_to_rgb_array image_bytes with
      | Ok x => Ok x
      | Raise e =>
          Raise (HTTPException 400
                   (String.append "Invalid image bytes: " (exn_str e)))
      end;
    let flat := reshape_flat arr in
    embedded ← extract flat;
    let original_bits := unpack_bytes_to_bits appended (Some HASH_BITS) in
    flat ← restore flat original_bits;
    let restored := reshape_as flat arr in
    let computed_digest := sha256_digest (tobytes restored) in
    let computed := unpack_bytes_to_bits computed_digest (Some HASH_BITS) in
    Ok {| restored_arr := restored; restored_fmt := fmt;
          computed_bits := computed; embedded_bits := embedded |}.

(** The comparison and the response. *)
Definition auth_response `{ImageLib} `{Base64Lib} (st : auth_state)
    : JSONResponse :=
  let restored_image_bytes :=
    rgb_array_to_image_bytes (restored_arr st) (restored_fmt st) in
  let percent := auth_percent (computed_bits st) (embedded_bits st) in
  let is_authentic := bool_decide (computed_bits st = embedded_bits st) in
  let msg := if is_authentic then "Image authentic (untampered)."%string
             else "Image tampered / altered."%string in
  {| authentic := is_authentic;
     message := msg;
     authentication_percentage := py_round percent 2;
     restored_image_b64 := b64encode restored_image_bytes |}.

Definition authenticate_image `{ImageLib} `{HashLib} `{Base64Lib}
    (file : UploadFile) : result JSONResponse :=
  st ← authenticate_state file;
  Ok (auth_response st).

(** ** Well-formed values *)

Definition is_bit (b : Z) : Prop := b = 0 \/ b = 1.

Definition is_byte (x : Z) : Prop := 0 <= x < 256.

(** The channels of a [uint8] array. *)
Definition wf_pixel (p : pixel) : Prop :=
  let '(r, g, b) := p in is_byte r /\ is_byte g /\ is_byte b.

(** A [uint8] array of shape [(H, W, 3)] holds [H * W] pixels. *)
Definition wf_ndarray (arr : ndarray) : Prop :=
  length (pixels arr) = (fst (shape arr) * snd (shape arr))%nat /\
  Forall wf_pixel (pixels arr).

#[global] Instance is_bit_dec b : Decision (is_bit b).
Proof. unfold is_bit. apply _. Defined.

#[global] Instance is_byte_dec x : Decision (is_byte x).
Proof. unfold is_byte. apply _. Defined.

#[global] Instance wf_pixel_dec p : Decision (wf_pixel p).
Proof. destruct p as [[r g] b]. unfold wf_pixel. apply _. Defined.

#[global] Instance wf_ndarray_dec arr : Decision (wf_ndarray arr).
Proof. unfold wf_ndarray. apply _. Defined.

(** What the embedding loop does to one pixel, and what it records. *)
Definition embed_pixel (p : pixel) (bit : Z) : pixel :=
  unfold_rgb (set_lsb (fold_rgb p) bit).

Definition pixel_lsb (p : pixel) : Z := Z.land (fold_rgb p) 1.

(** The byte built by the inner loop of [pack_bits_to_bytes] from a group
    of bits, most significant first. *)
Definition byte_of_bits (group : list Z) : Z :=
  fold_left (fun byte bit => Z.lor (Z.shiftl byte 1) bit) group 0.

(** Position [i] holds the same bit in both sequences. *)
Definition agree_at (xs ys : list Z) (i : nat) : Prop :=
  is_Some (xs !! i) /\ xs !! i = ys !! i.

#[global] Instance agree_at_dec xs ys i : Decision (agree_at xs ys i).
Proof. unfold agree_at. apply _. Defined.

(** The number of positions in [0, n) at which the sequences agree. *)
Definition agreements (xs ys : list Z) (n : nat) : nat :=
  length (filter (agree_at xs ys) (seq 0 n)).

(** ** What is assumed of the image library

    Decoding gives a [uint8] array of shape [(H, W, 3)], and saving an
    array and opening the result gives the same pixels: the re-encode is
    lossless. *)
Class LosslessImageLib `{ImageLib} : Prop := {
  decode_wf : forall (bs : list Z) (arr : ndarray) (fmt : string),
    image_bytes_to_rgb_array bs = Ok (arr, fmt) -> wf_ndarray arr;
  decode_encode : forall (arr : ndarray) (fmt : string),
    wf_ndarray arr ->
    exists fmt' : string,
      image_bytes_to_rgb_array (rgb_array_to_image_bytes arr fmt)
      = Ok (arr, fmt')
}.

(** ** A small lossless container, a checksum and a text encoding

    Stand-ins for PIL, [hashlib] and [base64] on which the pipelines can
    be run. The container starts with a mode byte, then height and width
    in unary (that many 1s, then a 0); mode 0 stores every pixel as three
    bytes, mode 1 stores one pixel that fills the image. Bytes after the
    image are ignored. Saving picks mode 1 when all pixels are equal. *)
Definition unary (n : nat) : list Z := replicate n 1 ++ [0].

Fixpoint parse_unary (bs : list Z) : option (nat * list Z) :=
  match bs with
  | [] => None
  | b :: rest =>
      if b =? 0 then Some (0%nat, rest)
      else match parse_unary rest with
           | Some (n, rest') => Some (S n, rest')
           | None => None
           end
  end.

Fixpoint parse_pixels (n : nat) (bs : list Z) : option (list pixel) :=
  match n with
  | O => Some []
  | S n' =>
      match bs with
      | r :: g :: b :: rest =>
          match parse_pixels n' rest with
          | Some ps => Some ((r mod 256, g mod 256, b mod 256) :: ps)
          | None => None
          end
      | _ => None
      end
  end.

Definition pixel_bytes (p : pixel) : list Z := let '(r, g, b) := p in [r; g; b].

Definition toy_decode (bs : list Z) : result (ndarray * string) :=
  match bs with
  | mode :: bs1 =>
      match parse_unary bs1 with
      | Some (h, bs2) =>
          match parse_unary bs2 with
          | Some (w, payload) =>
              let n := (h * w)%nat in
              let body := if mode =? 0 then parse_pixels n payload
                          else match parse_pixels 1 payload with
                               | Some [p] => Some (replicate n p)
                               | _ => None
                               end in
              match body with
              | Some ps => Ok ({| shape := (h, w); pixels := ps |}, "PNG"%string)
              | None => Raise (ImageError "image file is truncated")
              end
          | None => Raise (ImageError "cannot identify image file")
          end
      | None => Raise (ImageError "cannot identify image file")
      end
  | [] => Raise (ImageError "cannot identify image file")
  end.

Definition toy_encode (arr : ndarray) (fmt : string) : list Z :=
  let header := unary (fst (shape arr)) ++ unary (snd (shape arr)) in
  match pixels arr with
  | p :: _ =>
      if bool_decide (pixels arr = replicate (length (pixels arr)) p)
      then 1 :: header ++ pixel_bytes p
      else 0 :: header ++ flat_map pixel_bytes (pixels arr)
  | [] => 0 :: header
  end.

Definition toy_image : ImageLib :=
  {| image_bytes_to_rgb_array := toy_decode;
     rgb_array_to_image_bytes := toy_encode |}.

(** Thirty-two copies of the sum of the message bytes modulo 256. *)
Definition toy_hash : HashLib :=
  {| sha256_digest := fun m => replicate 32 (fold_right Z.add 0 m mod 256) |}.

(** One character per byte. *)
Definition toy_base64 : Base64Lib :=
  {| b64encode := fun bs =>
       string_of_list_ascii (map (fun b => ascii_of_nat (Z.to_nat b)) bs) |}.

(** ** Sample inputs *)

(** A 15 x 20 array with varied channels, and 256 alternating bits. *)
Definition sample_arr : ndarray :=
  {| shape := (15%nat, 20%nat);
     pixels := map (fun i : nat =>
                      let z := Z.of_nat i in
                      (z mod 256, (3 * z + 5) mod 256, (7 * z + 1) mod 256))
                   (seq 0 300) |}.

Definition sample_bits : list Z :=
  map (fun i : nat => Z.of_nat i mod 2) (seq 0 256).

(** Uploads in the small container: the 15 x 20 sample (938 bytes); a
    15 x 17 image, 255 pixels in 800 bytes; a black 16 x 16 image stored
    pixel by pixel (803 bytes); and 767 bytes that are no image. *)
Definition sample_file : UploadFile :=
  {| filename := "photo.png"; file_data := toy_encode sample_arr "PNG" |}.

Definition small_arr : ndarray :=
  {| shape := (15%nat, 17%nat); pixels := take 255 (pixels sample_arr) |}.

Definition small_file : UploadFile :=
  {| filename := "small.png"; file_data := toy_encode small_arr "PNG" |}.

Definition black_file : UploadFile :=
  {| filename := "black.png";
     file_data := 0 :: unary 16 ++ unary 16 ++ replicate 768 0 |}.

Definition short_file : UploadFile :=
  {| filename := "short.png"; file_data := replicate 767 0 |}.

(** The body of a response of [secure_image], as a new upload. *)
Definition as_upload (name : string) (r : result StreamingResponse) : UploadFile :=
  {| filename := name;
     file_data := match r with Ok resp => content resp | Raise _ => [] end |}.

(** The secured sample, and the same with bit 0 of the blue channel of
    its first pixel flipped (byte 40 of the container). *)
Definition secured_sample : UploadFile :=
  as_upload "secured_photo.png"
            (@secure_image toy_image toy_hash sample_file).

Definition tampered_sample : UploadFile :=
  {| filename := "tampered.png";
     file_data := alter (fun b => Z.lxor b 1) 40%nat (file_data secured_sample) |}.

(** ** [/download_restored/{filename}]

    The file system ([os.getcwd], [os.path.exists], [open(path, "rb")]) is
    external; [os.path.join] is the POSIX one, for two components. *)
Class OsLib : Type := {
  getcwd : string;
  path_exists : string -> bool;
  open_rb : string -> result (list Z)
}.

Definition starts_with_sep (s : string) : bool :=
  match s with
  | String "/" _ => true
  | _ => false
  end.

Fixpoint ends_with_sep (s : string) : bool :=
  match s with
  | EmptyString => false
  | String c EmptyString => Ascii.eqb c "/"
  | String _ s' => ends_with_sep s'
  end.

(** [os.path.join(a, b)] *)
Definition path_join (a b : string) : string :=
  if starts_with_sep b then b
  else if match a with EmptyString => true | _ => false end || ends_with_sep a
       then String.append a b
       else String.append a (String "/" b).

(** [StreamingResponse(open(path, "rb"), media_type=...)] *)
Record FileStream : Type := {
  stream_content : list Z;
  stream_media_type : string
}.

Definition stream_file `{OsLib} (path : string) : result FileStream :=
  bytes ← open_rb path;
  Ok {| stream_content := bytes;
        stream_media_type := "application/octet-stream" |}.

(** [for d in dirs: ...] followed by the final [raise]. *)
Fixpoint download_from `{OsLib} (dirs : list string) (filename : string)
    : result FileStream :=
  match dirs with
  | [] => Raise (HTTPException 404 "file not found")
  | d :: rest =>
      let path := path_join d filename in
      if path_exists path then stream_file path
      else download_from rest filename
  end.

Definition download_restored `{OsLib} (filename : string) : result FileStream :=
  download_from ["/tmp"%string; getcwd] filename.

(** A file system with [restored.png] both in [/tmp] and in the working
    directory, and [report.png] in the working directory only. *)
Definition toy_os : OsLib :=
  {| getcwd := "/srv/app";
     path_exists := fun p =>
       existsb (String.eqb p)
               ["/tmp/restored.png"; "/srv/app/restored.png";
                "/srv/app/report.png"; "/etc/passwd"]%string;
     open_rb := fun p =>
       if String.eqb p "/tmp/restored.png" then Ok [1; 2; 3]
       else if String.eqb p "/srv/app/restored.png" then Ok [4; 5; 6]
       else if String.eqb p "/srv/app/report.png" then Ok [7; 8]
       else if String.eqb p "/etc/passwd" then Ok [9]
       else Raise (ImageError "No such file or directory") |}.

(** Nine hundred bytes that are no image, and the 255-pixel image
    followed by 32 trailer bytes. *)
Definition garbage_file : UploadFile :=
  {| filename := "noise.png"; file_data := replicate 900 1 |}.

Definition small_buffer : UploadFile :=
  {| filename := "secured_small.png";
     file_data := file_data small_file ++ replicate 32 0 |}.

(** * Properties *)

(** ** The bit packers on small inputs *)

Example pack_ex : pack_bits_to_bytes [1;0;1;0;0;0;0;1; 1;1;1;1;1;1;1;1] = Ok [161; 255].
Proof. reflexivity. Qed.
Example pack_ex2 : pack_bits_to_bytes [1;0;1;0;0;0;0;1; 1] = Raise IndexError.
Proof. reflexivity. Qed.
Example unpack_ex : unpack_bytes_to_bits [161; 255] None = [1;0;1;0;0;0;0;1; 1;1;1;1;1;1;1;1].
Proof. reflexivity. Qed.

(** ** Bits of bytes and pixels *)

Lemma testbit_1 n : 0 <= n -> Z.testbit 1 n = (n =? 0).
Proof.
  intros Hn. change 1 with (Z.ones 1).
  rewrite Z.testbit_ones_nonneg by lia.
  destruct (Z.ltb_spec n 1), (Z.eqb_spec n 0); lia || reflexivity.
Qed.

Lemma testbit_255 n : 0 <= n -> Z.testbit 255 n = (n <? 8).
Proof.
  intros Hn. change 255 with (Z.ones 8).
  now rewrite Z.testbit_ones_nonneg by lia.
Qed.

Lemma testbit_byte_high x n : is_byte x -> 8 <= n -> Z.testbit x n = false.
Proof.
  intros [Hlo Hhi] Hn.
  rewrite <- (Z.mod_small x (2 ^ 8)) by (change (2 ^ 8) with 256; lia).
  apply Z.mod_pow2_bits_high. lia.
Qed.

Lemma testbit_bit_high b n : is_bit b -> 1 <= n -> Z.testbit b n = false.
Proof.
  intros [-> | ->] Hn.
  - apply Z.bits_0.
  - rewrite testbit_1 by lia. destruct (Z.eqb_spec n 0); lia || reflexivity.
Qed.

Lemma is_bit_byte b : is_bit b -> is_byte b.
Proof. intros [-> | ->]; unfold is_byte; lia. Qed.

Lemma land_1_is_bit x : is_bit (Z.land x 1).
Proof.
  change 1 with (Z.ones 1) at 1. rewrite Z.land_ones by lia.
  change (2 ^ 1) with 2. unfold is_bit.
  pose proof (Z.mod_pos_bound x 2). lia.
Qed.

(** Bit [n] of the folded value, read off the channels. *)
Lemma testbit_fold_rgb r g b n :
  0 <= n ->
  Z.testbit (fold_rgb (r, g, b)) n =
  Z.testbit r (n - 16) || Z.testbit g (n - 8) || Z.testbit b n.
Proof.
  intros Hn. unfold fold_rgb.
  now rewrite !Z.lor_spec, !Z.shiftl_spec by lia.
Qed.

Lemma testbit_set_lsb v bit n :
  0 <= n -> is_bit bit ->
  Z.testbit (set_lsb v bit) n =
  if n =? 0 then Z.testbit bit 0 else Z.testbit v n.
Proof.
  intros Hn Hbit. unfold set_lsb.
  rewrite Z.lor_spec, Z.land_spec, Z.lnot_spec, testbit_1 by lia.
  destruct (Z.eqb_spec n 0) as [-> | Hne]; simpl.
  - now rewrite andb_false_r.
  - rewrite andb_true_r, (testbit_bit_high bit n) by (auto; lia).
    now rewrite orb_false_r.
Qed.

(** Case analysis on the position of a bit within a byte. *)
Ltac byte_bits_cases n :=
  destruct (Z.ltb_spec n 8);
  rewrite ?andb_true_r, ?andb_false_r, ?orb_false_r;
  try reflexivity;
  try (symmetry; apply testbit_byte_high; [assumption | lia]).

(** The embedding keeps red and green and replaces bit 0 of blue. *)
Lemma embed_pixel_channels r g b bit :
  wf_pixel (r, g, b) -> is_bit bit ->
  embed_pixel (r, g, b) bit = (r, g, set_lsb b bit).
Proof.
  intros (Hr & Hg & Hb) Hbit. unfold embed_pixel, unfold_rgb.
  repeat f_equal; apply Z.bits_inj'; intros n Hn;
    rewrite Z.land_spec, testbit_255, ?Z.shiftr_spec by lia;
    rewrite !testbit_set_lsb, ?testbit_fold_rgb by (auto; lia).
  - replace (n + 16 =? 0) with false by (symmetry; apply Z.eqb_neq; lia).
    replace (n + 16 - 16) with n by lia.
    rewrite (testbit_byte_high g), (testbit_byte_high b) by (auto; lia).
    byte_bits_cases n.
  - replace (n + 8 =? 0) with false by (symmetry; apply Z.eqb_neq; lia).
    replace (n + 8 - 8) with n by lia.
    rewrite (testbit_byte_high b) by (auto; lia).
    destruct (Z.ltb_spec n 8).
    + rewrite (Z.testbit_neg_r r) by lia. simpl.
      now rewrite andb_true_r, orb_false_r.
    + rewrite andb_false_r. symmetry. apply testbit_byte_high; [assumption | lia].
  - destruct (Z.ltb_spec n 8).
    + rewrite (Z.testbit_neg_r r), (Z.testbit_neg_r g) by lia. simpl.
      now rewrite andb_true_r.
    + rewrite andb_false_r.
      replace (n =? 0) with false by (symmetry; apply Z.eqb_neq; lia).
      symmetry. apply testbit_byte_high; [assumption | lia].
Qed.

Lemma set_lsb_byte b bit : is_byte b -> is_bit bit -> is_byte (set_lsb b bit).
Proof.
  intros Hb Hbit.
  assert (H0 : 0 <= set_lsb b bit).
  { unfold set_lsb. apply Z.lor_nonneg. split.
    - apply Z.land_nonneg. left. unfold is_byte in Hb. lia.
    - destruct Hbit; lia. }
  split; [exact H0 |].
  destruct (Z.eq_dec (set_lsb b bit) 0) as [-> | Hne]; [lia |].
  change 256 with (2 ^ 8). apply Z.log2_lt_pow2; [lia |].
  apply Z.nle_gt. intros Hlog.
  pose proof (Z.bit_log2 (set_lsb b bit) ltac:(lia)) as Htop.
  rewrite testbit_set_lsb in Htop by (auto; apply Z.log2_nonneg).
  replace (Z.log2 (set_lsb b bit) =? 0) with false in Htop
    by (symmetry; apply Z.eqb_neq; lia).
  rewrite testbit_byte_high in Htop by (auto; lia). discriminate.
Qed.

Lemma embed_pixel_wf p bit : wf_pixel p -> is_bit bit -> wf_pixel (embed_pixel p bit).
Proof.
  destruct p as [[r g] b]. intros Hp Hbit.
  rewrite embed_pixel_channels by assumption.
  destruct Hp as (Hr & Hg & Hb). repeat split; try apply Hr; try apply Hg;
    apply set_lsb_byte; assumption.
Qed.

(** The recorded bit is bit 0 of blue. *)
Lemma pixel_lsb_blue r g b : pixel_lsb (r, g, b) = Z.land b 1.
Proof.
  unfold pixel_lsb. apply Z.bits_inj'. intros n Hn.
  rewrite !Z.land_spec, testbit_fold_rgb, testbit_1 by lia.
  destruct (Z.eqb_spec n 0) as [-> | Hne].
  - now rewrite (Z.testbit_neg_r r), (Z.testbit_neg_r g) by lia.
  - now rewrite !andb_false_r.
Qed.

Lemma pixel_lsb_is_bit p : is_bit (pixel_lsb p).
Proof. apply land_1_is_bit. Qed.

(** Writing a bit and reading it back. *)
Lemma pixel_lsb_embed p bit :
  wf_pixel p -> is_bit bit -> pixel_lsb (embed_pixel p bit) = bit.
Proof.
  destruct p as [[r g] b]. intros Hp Hbit.
  rewrite embed_pixel_channels, pixel_lsb_blue by assumption.
  apply Z.bits_inj'. intros n Hn.
  rewrite Z.land_spec, testbit_set_lsb, testbit_1 by (auto; lia).
  destruct (Z.eqb_spec n 0) as [-> | Hne].
  - now rewrite andb_true_r.
  - rewrite andb_false_r. symmetry. apply testbit_bit_high; [assumption | lia].
Qed.

(** Writing back the recorded bit undoes the embedding of one pixel. *)
Lemma restore_embed_pixel p bit :
  wf_pixel p -> is_bit bit ->
  embed_pixel (embed_pixel p bit) (pixel_lsb p) = p.
Proof.
  destruct p as [[r g] b]. intros Hp Hbit.
  pose proof (embed_pixel_wf _ _ Hp Hbit) as Hwf.
  rewrite embed_pixel_channels in Hwf |- * by assumption.
  rewrite embed_pixel_channels by (auto using pixel_lsb_is_bit).
  rewrite pixel_lsb_blue. repeat f_equal.
  apply Z.bits_inj'. intros n Hn.
  rewrite testbit_set_lsb by (auto using land_1_is_bit).
  destruct (Z.eqb_spec n 0) as [-> | Hne].
  - rewrite Z.land_spec. change (Z.testbit 1 0) with true. now rewrite andb_true_r.
  - rewrite testbit_set_lsb by assumption.
    now replace (n =? 0) with false by (symmetry; apply Z.eqb_neq; lia).
Qed.

(** ** The three per-pixel loops *)

Lemma getitem_middle {A} (l1 l2 : list A) (x : A) :
  getitem (l1 ++ x :: l2) (length l1) = Ok x.
Proof. unfold getitem. now rewrite list_lookup_middle. Qed.

Lemma getitem_ge {A} (l : list A) (i : nat) :
  (length l <= i)%nat -> getitem l i = Raise IndexError.
Proof. intros H. unfold getitem. now rewrite lookup_ge_None_2. Qed.

Lemma insert_middle {A} (l1 l2 : list A) (x y : A) :
  <[length l1 := y]> (l1 ++ x :: l2) = (l1 ++ [y]) ++ l2.
Proof.
  rewrite insert_app_r_alt, Nat.sub_diag by lia. simpl.
  now rewrite <- app_assoc.
Qed.

(** The embedding loop, started after [done] pixels. *)
Lemma embed_loop (n : nat) :
  forall (done todo : list pixel) (bdone btodo lsbs : list Z),
    length bdone = length done ->
    (n <= length todo)%nat -> (n <= length btodo)%nat ->
    for_each (embed_step (bdone ++ btodo)) (seq (length done) n)
             (done ++ todo, lsbs) =
    Ok (done ++ zip_with embed_pixel (take n todo) (take n btodo) ++ drop n todo,
        lsbs ++ (pixel_lsb <$> take n todo)).
Proof.
  induction n as [| n IH]; intros done todo bdone btodo lsbs Hlen Ht Hb.
  - cbn. now rewrite ?take_0, ?drop_0, ?app_nil_r.
  - destruct todo as [| p todo]; [simpl in Ht; lia |].
    destruct btodo as [| b btodo]; [simpl in Hb; lia |].
    simpl in Ht, Hb. cbn [seq for_each]. unfold embed_step at 2.
    rewrite getitem_middle. cbn [mbind result_bind].
    rewrite <- Hlen, getitem_middle, Hlen. cbn [mbind result_bind].
    rewrite insert_middle.
    replace (bdone ++ b :: btodo) with ((bdone ++ [b]) ++ btodo)
      by now rewrite <- app_assoc.
    replace (S (length done)) with (length (done ++ [unfold_rgb (set_lsb (fold_rgb p) b)]))
      by (rewrite length_app; simpl; lia).
    rewrite IH by (rewrite ?length_app; simpl; lia).
    simpl. now rewrite <- !app_assoc.
Qed.

Lemma embed_ok (flat : list pixel) (digest_bits : list Z) :
  (256 <= length flat)%nat -> (256 <= length digest_bits)%nat ->
  embed flat digest_bits =
  Ok (zip_with embed_pixel (take 256 flat) (take 256 digest_bits) ++ drop 256 flat,
      pixel_lsb <$> take 256 flat).
Proof.
  intros Hf Hb. unfold embed, range.
  change (Z.to_nat NUM_PIXELS) with 256%nat.
  exact (embed_loop 256 [] flat [] digest_bits [] eq_refl Hf Hb).
Qed.

(** The extraction loop. *)
Lemma extract_loop (n : nat) :
  forall (done todo : list pixel) (bits : list Z),
    (n <= length todo)%nat ->
    for_each (extract_step (done ++ todo)) (seq (length done) n) bits =
    Ok (bits ++ (pixel_lsb <$> take n todo)).
Proof.
  induction n as [| n IH]; intros done todo bits Ht.
  - cbn. now rewrite ?take_0, ?app_nil_r.
  - destruct todo as [| p todo]; [simpl in Ht; lia |].
    simpl in Ht. cbn [seq for_each]. unfold extract_step at 2.
    rewrite getitem_middle. cbn [mbind result_bind].
    replace (done ++ p :: todo) with ((done ++ [p]) ++ todo)
      by now rewrite <- app_assoc.
    replace (S (length done)) with (length (done ++ [p]))
      by (rewrite length_app; simpl; lia).
    rewrite IH by lia. simpl. now rewrite <- app_assoc.
Qed.

Lemma extract_ok (flat : list pixel) :
  (256 <= length flat)%nat ->
  extract flat = Ok (pixel_lsb <$> take 256 flat).
Proof.
  intros Hf. unfold extract, range.
  change (Z.to_nat NUM_PIXELS) with 256%nat.
  exact (extract_loop 256 [] flat [] Hf).
Qed.

(** The reconstruction loop. *)
Lemma restore_loop (n : nat) :
  forall (done todo : list pixel) (bdone btodo : list Z),
    length bdone = length done ->
    (n <= length todo)%nat -> (n <= length btodo)%nat ->
    for_each (restore_step (bdone ++ btodo)) (seq (length done) n)
             (done ++ todo) =
    Ok (done ++ zip_with embed_pixel (take n todo) (take n btodo) ++ drop n todo).
Proof.
  induction n as [| n IH]; intros done todo bdone btodo Hlen Ht Hb.
  - cbn. now rewrite ?take_0, ?drop_0.
  - destruct todo as [| p todo]; [simpl in Ht; lia |].
    destruct btodo as [| b btodo]; [simpl in Hb; lia |].
    simpl in Ht, Hb. cbn [seq for_each]. unfold restore_step at 2.
    rewrite getitem_middle. cbn [mbind result_bind].
    rewrite <- Hlen, getitem_middle, Hlen. cbn [mbind result_bind].
    rewrite insert_middle.
    replace (bdone ++ b :: btodo) with ((bdone ++ [b]) ++ btodo)
      by now rewrite <- app_assoc.
    replace (S (length done)) with (length (done ++ [unfold_rgb (set_lsb (fold_rgb p) b)]))
      by (rewrite length_app; simpl; lia).
    rewrite IH by (rewrite ?length_app; simpl; lia).
    simpl. now rewrite <- !app_assoc.
Qed.

Lemma restore_ok (flat : list pixel) (original_bits : list Z) :
  (256 <= length flat)%nat -> (256 <= length original_bits)%nat ->
  restore flat original_bits =
  Ok (zip_with embed_pixel (take 256 flat) (take 256 original_bits) ++ drop 256 flat).
Proof.
  intros Hf Hb. unfold restore, range.
  change (Z.to_nat NUM_PIXELS) with 256%nat.
  exact (restore_loop 256 [] flat [] original_bits eq_refl Hf Hb).
Qed.

(** ** Round trip of the embedding (C1) and its frame (C7) *)

Lemma zip_embed_restore (ps : list pixel) :
  forall bs : list Z,
    length ps = length bs -> Forall wf_pixel ps -> Forall is_bit bs ->
    zip_with embed_pixel (zip_with embed_pixel ps bs) (pixel_lsb <$> ps) = ps.
Proof.
  induction ps as [| p ps IH]; intros [| b bs] Hlen Hps Hbs;
    simpl in *; try lia; [reflexivity |].
  inversion Hps; inversion Hbs; subst.
  rewrite restore_embed_pixel by assumption.
  f_equal. apply IH; auto.
Qed.

Lemma embedded_length (flat : list pixel) (bits : list Z) :
  (256 <= length flat)%nat -> (256 <= length bits)%nat ->
  length (zip_with embed_pixel (take 256 flat) (take 256 bits) ++ drop 256 flat)
  = length flat.
Proof.
  intros Hf Hb.
  rewrite length_app, length_zip_with, !length_take, length_drop. lia.
Qed.

Lemma take_embedded (flat : list pixel) (bits : list Z) :
  (256 <= length flat)%nat -> (256 <= length bits)%nat ->
  take 256 (zip_with embed_pixel (take 256 flat) (take 256 bits) ++ drop 256 flat)
  = zip_with embed_pixel (take 256 flat) (take 256 bits).
Proof.
  intros Hf Hb. apply take_app_length'.
  rewrite length_zip_with, !length_take. lia.
Qed.

Lemma drop_embedded (flat : list pixel) (bits : list Z) :
  (256 <= length flat)%nat -> (256 <= length bits)%nat ->
  drop 256 (zip_with embed_pixel (take 256 flat) (take 256 bits) ++ drop 256 flat)
  = drop 256 flat.
Proof.
  intros Hf Hb. apply drop_app_length'.
  rewrite length_zip_with, !length_take. lia.
Qed.

(** Restoring an embedded buffer with the recorded bits gives the buffer. *)
Lemma restore_embedded (flat : list pixel) (bits : list Z) :
  (256 <= length flat)%nat -> Forall wf_pixel flat ->
  (256 <= length bits)%nat -> Forall is_bit bits ->
  restore (zip_with embed_pixel (take 256 flat) (take 256 bits) ++ drop 256 flat)
          (pixel_lsb <$> take 256 flat)
  = Ok flat.
Proof.
  intros Hf Hwf Hb Hbits.
  rewrite restore_ok.
  - rewrite take_embedded, drop_embedded by assumption.
    rewrite (take_ge (pixel_lsb <$> take 256 flat))
      by (rewrite length_fmap, length_take; lia).
    rewrite zip_embed_restore.
    + now rewrite take_drop.
    + rewrite !length_take. lia.
    + now apply Forall_take.
    + now apply Forall_take.
  - rewrite embedded_length; assumption.
  - rewrite length_fmap, length_take. lia.
Qed.

(** C1. For every pixel array with at least 256 pixels (channels in
    [0,255]) and every sequence of 256 digest bits, the embedding loop of
    [secure_image] succeeds, and running the reconstruction loop of
    [authenticate_image] on the modified array with the recorded
    original LSB bits succeeds and gives back an array equal to the
    original one, pixel for pixel and in shape. *)
Theorem embed_restore_roundtrip (arr : ndarray) (digest_bits : list Z) :
  (256 <= length (pixels arr))%nat ->
  Forall wf_pixel (pixels arr) ->
  length digest_bits = 256%nat ->
  Forall is_bit digest_bits ->
  exists (modified : list pixel) (original_lsb_bits restored : _),
    embed (reshape_flat arr) digest_bits = Ok (modified, original_lsb_bits) /\
    length original_lsb_bits = 256%nat /\
    restore (reshape_flat (reshape_as modified arr)) original_lsb_bits
      = Ok restored /\
    reshape_as restored (reshape_as modified arr) = arr.
Proof.
  intros Hf Hwf Hb Hbits. destruct arr as [sh flat]. simpl in *.
  unfold reshape_flat, reshape_as. simpl.
  eexists _, _, flat. rewrite embed_ok by lia.
  split; [reflexivity |]. split.
  - rewrite length_fmap, length_take. lia.
  - split; [| reflexivity].
    apply restore_embedded; auto; lia.
Qed.

Lemma embed_restore_roundtrip_witness :
  exists (modified : list pixel) (original_lsb_bits restored : _),
    embed (reshape_flat sample_arr) sample_bits
      = Ok (modified, original_lsb_bits) /\
    length original_lsb_bits = 256%nat /\
    restore (reshape_flat (reshape_as modified sample_arr)) original_lsb_bits
      = Ok restored /\
    reshape_as restored (reshape_as modified sample_arr) = sample_arr.
Proof.
  apply (embed_restore_roundtrip sample_arr sample_bits).
  - vm_compute. lia.
  - apply (bool_decide_unpack _). vm_compute. exact I.
  - reflexivity.
  - apply (bool_decide_unpack _). vm_compute. exact I.
Defined.

(** C7. For every array with at least 256 pixels and every sequence of
    256 digest bits, the embedding keeps the number of pixels, leaves
    every pixel at flattened index 256 or beyond unchanged, and in each of
    the first 256 pixels keeps red and green and changes at most bit 0 of
    blue: all bits of the folded 24-bit value other than bit 0 are
    unchanged, so nothing is carried into another bit or channel. *)
Theorem embed_frame (flat : list pixel) (digest_bits : list Z) :
  (256 <= length flat)%nat ->
  Forall wf_pixel flat ->
  length digest_bits = 256%nat ->
  Forall is_bit digest_bits ->
  exists (modified : list pixel) (original_lsb_bits : list Z),
    embed flat digest_bits = Ok (modified, original_lsb_bits) /\
    length modified = length flat /\
    (forall i : nat, (256 <= i)%nat -> modified !! i = flat !! i) /\
    (forall (i : nat) (r g b : Z),
        (i < 256)%nat -> flat !! i = Some (r, g, b) ->
        exists b' : Z,
          modified !! i = Some (r, g, b') /\
          (forall n, n <> 0 -> Z.testbit b' n = Z.testbit b n) /\
          (forall n, n <> 0 ->
             Z.testbit (fold_rgb (r, g, b')) n = Z.testbit (fold_rgb (r, g, b)) n)).
Proof.
  intros Hf Hwf Hb Hbits. eexists _, _. rewrite embed_ok by lia.
  split; [reflexivity |]. split; [apply embedded_length; lia |]. split.
  - intros i Hi. rewrite lookup_app_r
      by (rewrite length_zip_with, !length_take; lia).
    rewrite length_zip_with, !length_take, lookup_drop. f_equal. lia.
  - intros i r g b Hi Hp.
    destruct (lookup_lt_is_Some_2 digest_bits i ltac:(lia)) as [bit Hbit].
    assert (Hwfp : wf_pixel (r, g, b))
      by (eapply Forall_lookup_1; eauto).
    assert (Hisbit : is_bit bit) by (eapply Forall_lookup_1; eauto).
    exists (set_lsb b bit).
    assert (Hb' : forall n, n <> 0 ->
              Z.testbit (set_lsb b bit) n = Z.testbit b n).
    { intros n Hn. destruct (Z.lt_ge_cases n 0) as [Hneg | Hpos].
      - now rewrite !Z.testbit_neg_r.
      - rewrite testbit_set_lsb by assumption.
        now replace (n =? 0) with false by (symmetry; apply Z.eqb_neq; lia). }
    split; [| split; [exact Hb' |]].
    + rewrite lookup_app_l by (rewrite length_zip_with, !length_take; lia).
      rewrite lookup_zip_with, !lookup_take_lt by lia.
      rewrite Hp. simpl. rewrite Hbit. simpl.
      now rewrite embed_pixel_channels.
    + intros n Hn. destruct (Z.lt_ge_cases n 0) as [Hneg | Hpos].
      * now rewrite !Z.testbit_neg_r.
      * rewrite !testbit_fold_rgb by assumption. now rewrite Hb'.
Qed.

Lemma embed_frame_witness :
  exists (modified : list pixel) (original_lsb_bits : list Z),
    embed (pixels sample_arr) sample_bits = Ok (modified, original_lsb_bits) /\
    length modified = length (pixels sample_arr) /\
    (forall i : nat, (256 <= i)%nat -> modified !! i = pixels sample_arr !! i) /\
    (forall (i : nat) (r g b : Z),
        (i < 256)%nat -> pixels sample_arr !! i = Some (r, g, b) ->
        exists b' : Z,
          modified !! i = Some (r, g, b') /\
          (forall n, n <> 0 -> Z.testbit b' n = Z.testbit b n) /\
          (forall n, n <> 0 ->
             Z.testbit (fold_rgb (r, g, b')) n = Z.testbit (fold_rgb (r, g, b)) n)).
Proof.
  apply (embed_frame (pixels sample_arr) sample_bits).
  - vm_compute. lia.
  - apply (bool_decide_unpack _). vm_compute. exact I.
  - reflexivity.
  - apply (bool_decide_unpack _). vm_compute. exact I.
Defined.

(** ** Bit packing (C4, C6) *)

Lemma for_each_app {S} (body : nat -> S -> result S) (l1 l2 : list nat) (s : S) :
  for_each body (l1 ++ l2) s = (s' ← for_each body l1 s; for_each body l2 s').
Proof.
  revert s. induction l1 as [| i l1 IH]; intros s; simpl; [reflexivity |].
  destruct (body i s); simpl; auto.
Qed.

Lemma getitem_app_r {A} (l1 l2 : list A) (j : nat) :
  getitem (l1 ++ l2) (length l1 + j) = getitem l2 j.
Proof.
  unfold getitem. rewrite lookup_app_r by lia.
  now replace (length l1 + j - length l1)%nat with j by lia.
Qed.

(** Eight bits make a byte, and [byte_bits] gives them back. *)
Lemma byte_of_bits_roundtrip (group : list Z) :
  length group = 8%nat -> Forall is_bit group ->
  is_byte (byte_of_bits group) /\ byte_bits (byte_of_bits group) = group.
Proof.
  intros Hlen Hbits.
  do 8 (destruct group as [| ? group]; [discriminate Hlen |]).
  destruct group; [| discriminate Hlen].
  repeat match goal with
         | H : Forall _ (_ :: _) |- _ => inversion H; clear H; subst
         end.
  repeat match goal with
         | H : is_bit _ |- _ => destruct H as [-> | ->]
         end;
    (split; [unfold is_byte; vm_compute; split; congruence | reflexivity]).
Qed.

Lemma bytearray_append_ok (b : list Z) (x : Z) :
  is_byte x -> bytearray_append b x = Ok (b ++ [x]).
Proof.
  intros [Hlo Hhi]. unfold bytearray_append.
  destruct (Z.leb_spec 0 x); [| lia].
  destruct (Z.ltb_spec x 256); [reflexivity | lia].
Qed.

(** One complete group, at the offset [length pre]. *)
Lemma pack_group_ok (pre group rest b : list Z) :
  length group = 8%nat -> Forall is_bit group ->
  pack_group (pre ++ group ++ rest) (length pre) b
  = Ok (b ++ [byte_of_bits group]).
Proof.
  intros Hlen Hbits.
  destruct (byte_of_bits_roundtrip group Hlen Hbits) as [Hbyte _].
  do 8 (destruct group as [| ? group]; [discriminate Hlen |]).
  destruct group; [| discriminate Hlen].
  unfold pack_group, range. change (Z.to_nat 8) with 8%nat.
  cbn [seq for_each]. unfold pack_bit.
  rewrite !getitem_app_r. cbn [getitem lookup list_lookup app mbind result_bind].
  now apply bytearray_append_ok.
Qed.

(** The outer loop over [n] complete groups, started at group [k]. *)
Lemma pack_loop (n : nat) :
  forall (k : nat) (pre todo b : list Z),
    length pre = (k * 8)%nat ->
    (n * 8 <= length todo)%nat ->
    Forall is_bit (take (n * 8) todo) ->
    exists out : list Z,
      for_each (pack_group (pre ++ todo))
               (map (fun k => (k * 8)%nat) (seq k n)) b = Ok (b ++ out) /\
      length out = n /\
      flat_map byte_bits out = take (n * 8) todo.
Proof.
  induction n as [| n IH]; intros k pre todo b Hpre Hlen Hbits.
  - exists []. simpl. now rewrite app_nil_r.
  - assert (Htodo : todo = take 8 todo ++ drop 8 todo)
      by now rewrite take_drop.
    assert (Hg : length (take 8 todo) = 8%nat) by (rewrite length_take; lia).
    assert (Hgb : Forall is_bit (take 8 todo)).
    { replace (take 8 todo) with (take 8 (take (S n * 8) todo))
        by (rewrite take_take; f_equal; lia).
      now apply Forall_take. }
    destruct (byte_of_bits_roundtrip _ Hg Hgb) as [_ Hrt].
    destruct (IH (S k) (pre ++ take 8 todo) (drop 8 todo)
                 (b ++ [byte_of_bits (take 8 todo)])) as (out & Hrun & Hout & Hflat).
    + rewrite length_app, Hg. lia.
    + rewrite length_drop. lia.
    + rewrite take_drop_commute. apply Forall_drop.
      now replace (8 + n * 8)%nat with (S n * 8)%nat by lia.
    + exists (byte_of_bits (take 8 todo) :: out).
      cbn [seq map for_each]. rewrite <- Hpre.
      rewrite Htodo at 1. rewrite pack_group_ok by assumption.
      cbn [mbind result_bind].
      rewrite <- app_assoc, <- Htodo in Hrun. rewrite Hrun.
      split; [now rewrite <- app_assoc |].
      split; [simpl; lia |].
      cbn [flat_map]. rewrite Hrt, Hflat.
      replace (S n * 8)%nat with (8 + n * 8)%nat by lia.
      now rewrite take_take_drop.
Qed.

Lemma range_step_8 (q r : nat) :
  (r < 8)%nat ->
  range_step (q * 8 + r) 8 =
  map (fun k => (k * 8)%nat) (seq 0 (if Nat.eqb r 0 then q else S q)).
Proof.
  intros Hr. unfold range_step. do 2 f_equal.
  destruct (Nat.eqb_spec r 0) as [-> | Hne].
  - symmetry. apply (Nat.div_unique _ 8 q 7); lia.
  - symmetry. apply (Nat.div_unique _ 8 (S q) (r - 1)); lia.
Qed.

(** Packing a whole number of groups succeeds, and unpacking inverts it. *)
Lemma pack_ok (bits : list Z) (n : nat) :
  length bits = (n * 8)%nat -> Forall is_bit bits ->
  exists out : list Z,
    pack_bits_to_bytes bits = Ok out /\
    length out = n /\
    flat_map byte_bits out = bits.
Proof.
  intros Hlen Hbits. unfold pack_bits_to_bytes.
  replace (length bits) with (n * 8 + 0)%nat by lia.
  rewrite range_step_8 by lia. simpl Nat.eqb. cbv iota.
  destruct (pack_loop n 0 [] bits []) as (out & Hrun & Hout & Hflat);
    [reflexivity | lia | now apply Forall_take |].
  exists out. simpl in Hrun. rewrite Hrun.
  repeat split; [assumption |].
  rewrite Hflat. apply take_ge. lia.
Qed.

(** C6. For every sequence of bits whose length is a multiple of 8,
    [pack_bits_to_bytes] succeeds with one byte per group of eight bits
    and [unpack_bytes_to_bits] of the result is the original sequence; in
    particular 256 bits pack into exactly 32 bytes. *)
Theorem pack_unpack_roundtrip (bits : list Z) :
  Forall is_bit bits ->
  (length bits mod 8 = 0)%nat ->
  exists bts : list Z,
    pack_bits_to_bytes bits = Ok bts /\
    unpack_bytes_to_bits bts None = bits /\
    (length bts * 8 = length bits)%nat /\
    (length bits = 256%nat -> length bts = 32%nat).
Proof.
  intros Hbits Hmod.
  assert (Hlen : length bits = (length bits / 8 * 8)%nat).
  { pose proof (Nat.div_mod_eq (length bits) 8). lia. }
  destruct (pack_ok bits _ Hlen Hbits) as (out & Hpack & Hout & Hflat).
  exists out. repeat split; try assumption; lia.
Qed.

Lemma pack_unpack_roundtrip_witness :
  exists bts : list Z,
    pack_bits_to_bytes sample_bits = Ok bts /\
    unpack_bytes_to_bits bts None = sample_bits /\
    (length bts * 8 = length sample_bits)%nat /\
    (length sample_bits = 256%nat -> length bts = 32%nat).
Proof.
  apply (pack_unpack_roundtrip sample_bits).
  - apply (bool_decide_unpack _). vm_compute. exact I.
  - reflexivity.
Defined.

(** Unpacking with [expected_bits = 256], as both pipelines do. *)
Lemma pack_unpack_256 (bits : list Z) :
  length bits = 256%nat -> Forall is_bit bits ->
  exists bts : list Z,
    pack_bits_to_bytes bits = Ok bts /\
    length bts = 32%nat /\
    unpack_bytes_to_bits bts (Some HASH_BITS) = bits.
Proof.
  intros Hlen Hbits.
  destruct (pack_ok bits 32 Hlen Hbits) as (out & Hpack & Hout & Hflat).
  exists out. repeat split; try assumption.
  unfold unpack_bytes_to_bits, slice_to.
  change (HASH_BITS <? 0) with false. cbv iota.
  change (Z.to_nat HASH_BITS) with 256%nat.
  rewrite Hflat. apply take_ge. lia.
Qed.

Lemma pack_bit_unfold (bit_list : list Z) (i j : nat) (byte : Z) :
  pack_bit bit_list i j byte =
  match bit_list !! (i + j)%nat with
  | Some bit => Ok (Z.lor (Z.shiftl byte 1) bit)
  | None => Raise IndexError
  end.
Proof. unfold pack_bit, getitem. now destruct (bit_list !! (i + j)%nat). Qed.

(** An index past the end anywhere in the inner loop raises [IndexError]. *)
Lemma pack_bit_raises (bit_list : list Z) (i : nat) (idxs : list nat) :
  forall byte : Z,
    (exists j : nat, j ∈ idxs /\ (length bit_list <= i + j)%nat) ->
    for_each (pack_bit bit_list i) idxs byte = Raise IndexError.
Proof.
  induction idxs as [| j0 idxs IH]; intros byte (j & Hin & Hj).
  - inversion Hin.
  - cbn [for_each]. rewrite pack_bit_unfold.
    destruct (bit_list !! (i + j0)%nat) as [bit |] eqn:Hlook; [| reflexivity].
    cbn [mbind result_bind]. apply IH. exists j. split; [| exact Hj].
    apply elem_of_cons in Hin as [-> | Hin]; [| exact Hin].
    apply lookup_lt_Some in Hlook. lia.
Qed.

(** A group that runs past the end of the list raises [IndexError]. *)
Lemma pack_group_short (bit_list b : list Z) (i : nat) :
  (length bit_list < i + 8)%nat ->
  pack_group bit_list i b = Raise IndexError.
Proof.
  intros Hshort. unfold pack_group.
  rewrite pack_bit_raises; [reflexivity |].
  exists 7%nat. split; [| lia].
  unfold range. change (Z.to_nat 8) with 8%nat. simpl.
  repeat constructor.
Qed.

(** C4 (as the code has it). For every sequence of bits whose length is
    not a multiple of 8, [pack_bits_to_bytes] raises [IndexError] when it
    reaches the incomplete last group: it returns no bytes. *)
Theorem pack_partial_group_raises (bits : list Z) :
  Forall is_bit bits ->
  (length bits mod 8 <> 0)%nat ->
  pack_bits_to_bytes bits = Raise IndexError.
Proof.
  intros Hbits Hmod. unfold pack_bits_to_bytes.
  pose proof (Nat.div_mod_eq (length bits) 8) as Hdiv.
  pose proof (Nat.mod_upper_bound (length bits) 8 ltac:(lia)) as Hr.
  set (q := (length bits / 8)%nat) in *.
  set (r := (length bits mod 8)%nat) in *.
  replace (length bits) with (q * 8 + r)%nat at 1 by lia.
  rewrite range_step_8 by assumption.
  destruct (Nat.eqb_spec r 0) as [H0 | _]; [contradiction |].
  rewrite seq_S, map_app, for_each_app.
  destruct (pack_loop q 0 [] bits []) as (out & Hrun & _);
    [reflexivity | lia | now apply Forall_take |].
  simpl in Hrun. rewrite Hrun. cbn [mbind result_bind map for_each].
  rewrite pack_group_short by lia. reflexivity.
Qed.

Lemma pack_partial_group_raises_witness :
  pack_bits_to_bytes [1; 0; 1; 0; 0; 0; 0; 1; 1; 1; 0; 1] = Raise IndexError.
Proof.
  apply (pack_partial_group_raises [1; 0; 1; 0; 0; 0; 0; 1; 1; 1; 0; 1]).
  - apply (bool_decide_unpack _). vm_compute. exact I.
  - vm_compute. lia.
Defined.

(** Twelve bits: the claimed result would be the single byte of the one
    complete group; the code raises instead. *)
Lemma pack_partial_group_counterexample :
  let bits := [1; 0; 1; 0; 0; 0; 0; 1; 1; 1; 0; 1] in
  Forall is_bit bits /\
  (length bits mod 8 <> 0)%nat /\
  ~ (exists bts : list Z,
       pack_bits_to_bytes bits = Ok bts /\ length bts = (length bits / 8)%nat).
Proof.
  cbv zeta. split; [| split].
  - apply (bool_decide_unpack _). vm_compute. exact I.
  - vm_compute. lia.
  - intros (bts & Hpack & _). vm_compute in Hpack. discriminate Hpack.
Qed.

(** ** When the per-pixel loops fail *)

(** The embedding loop raises [IndexError] as soon as it runs past the end
    of the pixel buffer or of the digest bits. *)
Lemma embed_loop_raises (digest_bits : list Z) (n : nat) :
  forall (k : nat) (flat : list pixel) (lsbs : list Z),
    (k <= length flat)%nat -> (k <= length digest_bits)%nat ->
    (length flat < k + n \/ length digest_bits < k + n)%nat ->
    for_each (embed_step digest_bits) (seq k n) (flat, lsbs) = Raise IndexError.
Proof.
  induction n as [| n IH]; intros k flat lsbs Hf Hb Hshort; [lia |].
  cbn [seq for_each].
  destruct (embed_step digest_bits k (flat, lsbs)) as [[flat' lsbs'] | e] eqn:Hstep;
    unfold embed_step, getitem in Hstep;
    destruct (flat !! k) as [p |] eqn:Hp; simpl in Hstep;
    try destruct (digest_bits !! k) as [bit |] eqn:Hbit; simpl in Hstep;
    inversion Hstep; subst; try reflexivity.
  cbn [mbind result_bind].
  apply lookup_lt_Some in Hp. apply lookup_lt_Some in Hbit.
  apply IH; rewrite ?length_insert; lia.
Qed.

Lemma embed_short (flat : list pixel) (digest_bits : list Z) :
  (length flat < 256 \/ length digest_bits < 256)%nat ->
  embed flat digest_bits = Raise IndexError.
Proof.
  intros Hshort. unfold embed, range.
  change (Z.to_nat NUM_PIXELS) with 256%nat.
  apply embed_loop_raises; lia.
Qed.

(** Success of the embedding loop, read backwards. *)
Lemma embed_Ok_inv (flat modified : list pixel) (digest_bits lsbs : list Z) :
  embed flat digest_bits = Ok (modified, lsbs) ->
  (256 <= length flat)%nat /\ (256 <= length digest_bits)%nat /\
  modified = zip_with embed_pixel (take 256 flat) (take 256 digest_bits)
             ++ drop 256 flat /\
  lsbs = pixel_lsb <$> take 256 flat.
Proof.
  intros Hrun.
  destruct (Nat.lt_ge_cases (length flat) 256) as [Hf | Hf];
    [rewrite embed_short in Hrun by lia; discriminate |].
  destruct (Nat.lt_ge_cases (length digest_bits) 256) as [Hb | Hb];
    [rewrite embed_short in Hrun by lia; discriminate |].
  rewrite embed_ok in Hrun by assumption.
  inversion Hrun. auto.
Qed.

Lemma extract_loop_raises (flat : list pixel) (n : nat) :
  forall (k : nat) (bits : list Z),
    (k <= length flat < k + n)%nat ->
    for_each (extract_step flat) (seq k n) bits = Raise IndexError.
Proof.
  induction n as [| n IH]; intros k bits Hk; [lia |].
  cbn [seq for_each].
  destruct (extract_step flat k bits) as [bits' | e] eqn:Hstep;
    unfold extract_step, getitem in Hstep;
    destruct (flat !! k) as [p |] eqn:Hp; simpl in Hstep;
    inversion Hstep; subst; try reflexivity.
  cbn [mbind result_bind].
  apply lookup_lt_Some in Hp. apply IH. lia.
Qed.

Lemma extract_short (flat : list pixel) :
  (length flat < 256)%nat -> extract flat = Raise IndexError.
Proof.
  intros Hshort. unfold extract, range.
  change (Z.to_nat NUM_PIXELS) with 256%nat.
  apply extract_loop_raises. lia.
Qed.

Lemma extract_Ok_inv (flat : list pixel) (bits : list Z) :
  extract flat = Ok bits ->
  (256 <= length flat)%nat /\ bits = pixel_lsb <$> take 256 flat.
Proof.
  intros Hrun.
  destruct (Nat.lt_ge_cases (length flat) 256) as [Hf | Hf];
    [rewrite extract_short in Hrun by lia; discriminate |].
  rewrite extract_ok in Hrun by assumption.
  inversion Hrun. auto.
Qed.

(** ** Bits that come out of the codec are bits *)

Lemma byte_bits_are_bits (byte : Z) : Forall is_bit (byte_bits byte).
Proof.
  unfold byte_bits, range. change (Z.to_nat 8) with 8%nat.
  cbn [seq rev app map]. repeat (constructor; [apply land_1_is_bit |]).
  constructor.
Qed.

Lemma unpack_are_bits (bts : list Z) (expected_bits : option Z) :
  Forall is_bit (unpack_bytes_to_bits bts expected_bits).
Proof.
  assert (Hall : Forall is_bit (flat_map byte_bits bts)).
  { induction bts as [| byte bts IH]; cbn [flat_map]; [constructor |].
    apply Forall_app. split; [apply byte_bits_are_bits | exact IH]. }
  unfold unpack_bytes_to_bits, slice_to.
  destruct expected_bits as [n |]; [| exact Hall].
  destruct (n <? 0); now apply Forall_take.
Qed.

Lemma unpack_256_length (bts : list Z) :
  (length (unpack_bytes_to_bits bts (Some HASH_BITS)) <= 256)%nat.
Proof.
  unfold unpack_bytes_to_bits, slice_to.
  change (HASH_BITS <? 0) with false. cbv iota.
  change (Z.to_nat HASH_BITS) with 256%nat.
  rewrite length_take. lia.
Qed.

Lemma pixel_lsbs_are_bits (ps : list pixel) : Forall is_bit (pixel_lsb <$> ps).
Proof.
  apply Forall_fmap, Forall_forall. intros p _. apply pixel_lsb_is_bit.
Qed.

(** ** Counting matches *)

Lemma match_count_bounds (xs ys : list Z) :
  0 <= match_count xs ys <= Z.of_nat (Nat.min (length xs) (length ys)).
Proof.
  unfold match_count.
  pose proof (length_filter (fun ab : Z * Z => fst ab = snd ab) (zip xs ys)) as H.
  rewrite length_zip_with in H. lia.
Qed.

(** All positions match exactly when the two sequences are equal. *)
Lemma match_count_full (xs : list Z) :
  forall ys : list Z,
    length xs = length ys ->
    (match_count xs ys = Z.of_nat (length xs) <-> xs = ys).
Proof.
  unfold match_count.
  induction xs as [| a xs IH]; intros [| b ys] Hlen; simpl in Hlen; try lia.
  - simpl. tauto.
  - specialize (IH ys ltac:(lia)). cbn [zip_with].
    destruct (decide (a = b)) as [-> | Hne].
    + rewrite filter_cons_True by reflexivity. cbn [length].
      split.
      * intros H. f_equal. apply IH. lia.
      * intros H. inversion H; subst. apply Nat2Z.inj_iff. f_equal.
        apply Nat2Z.inj_iff. apply IH. reflexivity.
    + rewrite filter_cons_False by (simpl; congruence).
      pose proof (length_filter (fun ab : Z * Z => fst ab = snd ab) (zip xs ys)) as H.
      rewrite length_zip_with in H. cbn [length].
      split; [lia | congruence].
Qed.

(** The percentage, exact or rounded, is 100 only for 256 matches out of
    256; checked on each of the 257 possible counts. *)
Lemma percent_100_table :
  forallb (fun i : nat =>
             let k := Z.of_nat i in
             let p := ((inject_Z k / inject_Z HASH_BITS) * inject_Z 100)%Q in
             Bool.eqb (Qeq_bool p 100%Q) (k =? 256) &&
             Bool.eqb (Qeq_bool (py_round p 2) 100%Q) (k =? 256))
          (seq 0 257) = true.
Proof. vm_compute. reflexivity. Qed.

Lemma percent_100_iff (k : Z) :
  0 <= k <= 256 ->
  let p := ((inject_Z k / inject_Z HASH_BITS) * inject_Z 100)%Q in
  ((p == 100)%Q <-> k = 256) /\ ((py_round p 2 == 100)%Q <-> k = 256).
Proof.
  intros Hk.
  pose proof percent_100_table as Htab.
  rewrite forallb_forall in Htab.
  specialize (Htab (Z.to_nat k)).
  rewrite Z2Nat.id in Htab by lia. cbv zeta in Htab |- *.
  assert (Hin : In (Z.to_nat k) (seq 0 257)) by (apply in_seq; lia).
  apply Htab in Hin. apply andb_prop in Hin as [H1 H2].
  apply Bool.eqb_prop in H1, H2.
  rewrite <- !Qeq_bool_iff, H1, H2.
  split; apply Z.eqb_eq.
Qed.

Lemma filter_ext_elem {A} (P1 P2 : A -> Prop)
    `{!forall x, Decision (P1 x)} `{!forall x, Decision (P2 x)} (l : list A) :
  (forall x, x ∈ l -> (P1 x <-> P2 x)) -> filter P1 l = filter P2 l.
Proof.
  induction l as [| x l IH]; intros Hext; [reflexivity |].
  assert (Hx : P1 x <-> P2 x) by (apply Hext; constructor).
  assert (Hl : filter P1 l = filter P2 l)
    by (apply IH; intros y Hy; apply Hext; now constructor).
  destruct (decide (P1 x)) as [H1 | H1].
  - rewrite !filter_cons_True by tauto. now f_equal.
  - rewrite !filter_cons_False by tauto. assumption.
Qed.

Lemma filter_False {A} (l : list A) : filter (fun _ : A => False) l = [].
Proof.
  induction l as [| x l IH]; [reflexivity |].
  now rewrite filter_cons_False by tauto.
Qed.

Lemma agreements_from (n : nat) :
  forall (k : nat) (xs ys : list Z),
    (Nat.min (length xs) (length ys) <= n)%nat ->
    length (filter (fun i => agree_at xs ys (i - k)) (seq k n))
    = length (filter (fun ab : Z * Z => fst ab = snd ab) (zip xs ys)).
Proof.
  induction n as [| n IH]; intros k xs ys Hmin.
  - destruct xs, ys; simpl in Hmin; try lia; reflexivity.
  - destruct xs as [| a xs].
    { rewrite (filter_ext_elem _ (fun _ => False)); [now rewrite filter_False |].
      intros i _. unfold agree_at. rewrite lookup_nil.
      split; [intros [[x Hx] _]; discriminate | tauto]. }
    destruct ys as [| b ys].
    { rewrite (filter_ext_elem _ (fun _ => False)); [now rewrite filter_False |].
      intros i _. unfold agree_at. rewrite (lookup_nil (A:=Z)).
      split; [intros [[x Hx] Heq]; congruence | tauto]. }
    simpl in Hmin. cbn [seq zip_with].
    assert (Htail :
      filter (fun i => agree_at (a :: xs) (b :: ys) (i - k)) (seq (S k) n)
      = filter (fun i => agree_at xs ys (i - S k)) (seq (S k) n)).
    { apply filter_ext_elem. intros i Hi.
      apply elem_of_seq in Hi.
      replace (i - k)%nat with (S (i - S k)) by lia.
      unfold agree_at. simpl. tauto. }
    specialize (IH (S k) xs ys ltac:(lia)).
    destruct (decide (a = b)) as [-> | Hne].
    + rewrite filter_cons_True.
      * rewrite (filter_cons_True _ (b, b)) by reflexivity.
        cbn [length]. now rewrite Htail, IH.
      * rewrite Nat.sub_diag. unfold agree_at. simpl. split; eauto.
    + rewrite filter_cons_False.
      * rewrite (filter_cons_False _ (a, b)) by (simpl; congruence).
        now rewrite Htail, IH.
      * rewrite Nat.sub_diag. unfold agree_at. simpl.
        intros [_ Heq]. congruence.
Qed.

(** [match_count] counts the positions at which the sequences agree. *)
Lemma match_count_agreements (xs ys : list Z) (n : nat) :
  (Nat.min (length xs) (length ys) <= n)%nat ->
  match_count xs ys = Z.of_nat (agreements xs ys n).
Proof.
  intros Hmin. unfold match_count, agreements. f_equal.
  rewrite <- (agreements_from n 0 xs ys Hmin).
  f_equal. apply filter_ext_elem. intros i _.
  now rewrite Nat.sub_0_r.
Qed.

(** ** Slices of the authenticated buffer *)

Lemma slice_to_trailer {A} (img trailer : list A) :
  length trailer = 32%nat ->
  slice_to (- APPENDED_BYTES) (img ++ trailer) = img.
Proof.
  intros Hlen. unfold slice_to. change (- APPENDED_BYTES <? 0) with true. cbv iota.
  rewrite length_app, Hlen. change APPENDED_BYTES with 32.
  apply take_app_length'. lia.
Qed.

Lemma slice_from_trailer {A} (img trailer : list A) :
  length trailer = 32%nat ->
  slice_from (- APPENDED_BYTES) (img ++ trailer) = trailer.
Proof.
  intros Hlen. unfold slice_from. change (- APPENDED_BYTES <? 0) with true. cbv iota.
  rewrite length_app, Hlen. change APPENDED_BYTES with 32.
  apply drop_app_length'. lia.
Qed.

Lemma slice_from_length {A} (data : list A) :
  (32 <= length data)%nat ->
  length (slice_from (- APPENDED_BYTES) data) = 32%nat.
Proof.
  intros Hlen. unfold slice_from. change (- APPENDED_BYTES <? 0) with true. cbv iota.
  change APPENDED_BYTES with 32. rewrite length_drop. lia.
Qed.

Lemma byte_bits_length (byte : Z) : length (byte_bits byte) = 8%nat.
Proof. reflexivity. Qed.

Lemma unpack_256_of_32 (bts : list Z) :
  length bts = 32%nat ->
  length (unpack_bytes_to_bits bts (Some HASH_BITS)) = 256%nat.
Proof.
  intros Hlen. unfold unpack_bytes_to_bits, slice_to.
  change (HASH_BITS <? 0) with false. cbv iota.
  change (Z.to_nat HASH_BITS) with 256%nat.
  assert (Hall : forall l : list Z,
            length (flat_map byte_bits l) = (8 * length l)%nat).
  { induction l as [| x l IH]; [reflexivity |].
    cbn [flat_map]. rewrite length_app, byte_bits_length, IH. simpl. lia. }
  rewrite length_take, Hall, Hlen. reflexivity.
Qed.

(** ** Embedded buffers are well formed and carry the digest bits *)

Lemma zip_embed_wf (ps : list pixel) :
  forall bs : list Z,
    Forall wf_pixel ps -> Forall is_bit bs ->
    Forall wf_pixel (zip_with embed_pixel ps bs).
Proof.
  induction ps as [| p ps IH]; intros [| b bs] Hps Hbs; simpl; try constructor.
  - inversion Hps; inversion Hbs; subst. now apply embed_pixel_wf.
  - inversion Hps; inversion Hbs; subst. now apply IH.
Qed.

Lemma embedded_wf (flat : list pixel) (bits : list Z) :
  Forall wf_pixel flat -> Forall is_bit bits ->
  Forall wf_pixel
    (zip_with embed_pixel (take 256 flat) (take 256 bits) ++ drop 256 flat).
Proof.
  intros Hf Hb. apply Forall_app. split.
  - apply zip_embed_wf; now apply Forall_take.
  - now apply Forall_drop.
Qed.

Lemma zip_embed_lsb (ps : list pixel) :
  forall bs : list Z,
    length ps = length bs -> Forall wf_pixel ps -> Forall is_bit bs ->
    pixel_lsb <$> zip_with embed_pixel ps bs = bs.
Proof.
  induction ps as [| p ps IH]; intros [| b bs] Hlen Hps Hbs;
    simpl in *; try lia; [reflexivity |].
  inversion Hps; inversion Hbs; subst.
  rewrite pixel_lsb_embed by assumption. f_equal. apply IH; auto.
Qed.

(** The bits read back from an embedded buffer are the embedded bits. *)
Lemma extract_embedded (flat : list pixel) (bits : list Z) :
  (256 <= length flat)%nat -> Forall wf_pixel flat ->
  length bits = 256%nat -> Forall is_bit bits ->
  extract (zip_with embed_pixel (take 256 flat) (take 256 bits) ++ drop 256 flat)
  = Ok bits.
Proof.
  intros Hf Hwf Hb Hbits.
  rewrite extract_ok by (rewrite embedded_length; lia).
  rewrite take_embedded by lia.
  rewrite zip_embed_lsb.
  - now rewrite take_ge by lia.
  - rewrite !length_take. lia.
  - now apply Forall_take.
  - now apply Forall_take.
Qed.

(** ** The two pipelines *)

Section Pipelines.
Context {IL : ImageLib} {HL : HashLib} {BL : Base64Lib}.

(** The digest bits that [secure_image] embeds into a decoded array. *)
Let digest_bits_of (arr : ndarray) : list Z :=
  unpack_bytes_to_bits (sha256_digest (tobytes arr)) (Some HASH_BITS).

(** A successful run of [secure_image], step by step. *)
Lemma secure_image_Ok_inv (file : UploadFile) (resp : StreamingResponse) :
  secure_image file = Ok resp ->
  exists (arr : ndarray) (fmt : string) (trailer : list Z),
    MIN_BYTES <= Z.of_nat (length (file_data file)) /\
    image_bytes_to_rgb_array (file_data file) = Ok (arr, fmt) /\
    (256 <= length (pixels arr))%nat /\
    length (digest_bits_of arr) = 256%nat /\
    pack_bits_to_bytes (pixel_lsb <$> take 256 (pixels arr)) = Ok trailer /\
    length trailer = 32%nat /\
    unpack_bytes_to_bits trailer (Some HASH_BITS)
      = pixel_lsb <$> take 256 (pixels arr) /\
    content resp =
      rgb_array_to_image_bytes
        (reshape_as (zip_with embed_pixel (take 256 (pixels arr))
                       (digest_bits_of arr) ++ drop 256 (pixels arr)) arr) fmt
      ++ trailer.
Proof.
  unfold secure_image. intros Hrun.
  destruct (Z.ltb_spec (Z.of_nat (length (file_data file))) MIN_BYTES) as [| Hmin];
    [discriminate |].
  destruct (image_bytes_to_rgb_array (file_data file)) as [[arr fmt] | e] eqn:Hdec;
    [| discriminate].
  cbn [mbind result_bind] in Hrun.
  fold (digest_bits_of arr) in Hrun.
  destruct (embed (reshape_flat arr) (digest_bits_of arr))
    as [[modified lsbs] | e] eqn:Hemb; [| discriminate].
  cbn [mbind result_bind] in Hrun.
  apply embed_Ok_inv in Hemb as (Hf & Hb & -> & ->).
  unfold reshape_flat in *.
  assert (Hlen : length (digest_bits_of arr) = 256%nat).
  { pose proof (unpack_256_length (sha256_digest (tobytes arr))).
    unfold digest_bits_of in *. lia. }
  destruct (pack_unpack_256 (pixel_lsb <$> take 256 (pixels arr)))
    as (trailer & Hpack & Htl & Hunpack).
  { rewrite length_fmap, length_take. lia. }
  { apply pixel_lsbs_are_bits. }
  rewrite Hpack in Hrun. cbn [mbind result_bind] in Hrun.
  inversion Hrun; subst; clear Hrun. cbn [content].
  exists arr, fmt, trailer.
  rewrite (take_ge (digest_bits_of arr)) by lia.
  repeat split; auto.
Qed.

(** C9. For every upload that [secure_image] accepts, the body of the
    response is the re-encoded modified image followed by a trailer of
    exactly 32 bytes, the packed original LSBs of the first 256 pixels:
    unpacking the trailer gives those 256 bits back. The length of the
    body is the length of the encoded image plus 32. *)
Theorem secure_output_layout (file : UploadFile) (resp : StreamingResponse) :
  secure_image file = Ok resp ->
  exists (arr : ndarray) (fmt : string) (modified : list pixel)
         (original_lsb_bits trailer : list Z),
    image_bytes_to_rgb_array (file_data file) = Ok (arr, fmt) /\
    embed (reshape_flat arr)
          (unpack_bytes_to_bits (sha256_digest (tobytes arr)) (Some HASH_BITS))
      = Ok (modified, original_lsb_bits) /\
    original_lsb_bits = pixel_lsb <$> take 256 (pixels arr) /\
    length original_lsb_bits = 256%nat /\
    pack_bits_to_bytes original_lsb_bits = Ok trailer /\
    length trailer = 32%nat /\
    unpack_bytes_to_bits trailer (Some HASH_BITS) = original_lsb_bits /\
    content resp
      = rgb_array_to_image_bytes (reshape_as modified arr) fmt ++ trailer /\
    length (content resp)
      = (length (rgb_array_to_image_bytes (reshape_as modified arr) fmt) + 32)%nat.
Proof.
  intros Hrun.
  destruct (secure_image_Ok_inv file resp Hrun)
    as (arr & fmt & trailer & _ & Hdec & Hf & Hbl & Hpack & Htl & Hunpack & Hcontent).
  unfold digest_bits_of, reshape_flat in *.
  exists arr, fmt. eexists _, _, trailer.
  split; [exact Hdec |].
  split; [apply embed_ok; lia |].
  split; [reflexivity |].
  split; [rewrite length_fmap, length_take; lia |].
  split; [exact Hpack |]. split; [exact Htl |]. split; [exact Hunpack |].
  rewrite (take_ge (unpack_bytes_to_bits (sha256_digest _) _)) by lia.
  split; [exact Hcontent |].
  rewrite Hcontent, length_app, Htl. reflexivity.
Qed.

(** C8. An upload of fewer than 768 bytes is rejected by [secure_image],
    and one of fewer than 800 bytes by [authenticate_image], each with an
    HTTP 400 "Image too small" exception and nothing else; the result does
    not depend on the image library, the hash or the encoder, which are
    never reached. *)
Theorem size_rejection (file : UploadFile) :
  (Z.of_nat (length (file_data file)) < 768 ->
   secure_image file =
   Raise (HTTPException 400
     "Image too small to secure. Must have at least 6144 bits (256 pixels).")) /\
  (Z.of_nat (length (file_data file)) < 800 ->
   authenticate_image file =
   Raise (HTTPException 400
     "Image too small or lacks appended data. Must have at least 6144 bits (256 pixels).")).
Proof.
  split; intros Hlen.
  - unfold secure_image.
    destruct (Z.ltb_spec (Z.of_nat (length (file_data file))) MIN_BYTES) as [| Hge];
      [reflexivity |].
    change MIN_BYTES with 768 in Hge. lia.
  - unfold authenticate_image, authenticate_state.
    destruct (Z.ltb_spec (Z.of_nat (length (file_data file)))
                         (MIN_BYTES + APPENDED_BYTES)) as [| Hge];
      [reflexivity |].
    change (MIN_BYTES + APPENDED_BYTES) with 800 in Hge. lia.
Qed.

(** C3 (what the code does). The size check of [secure_image] is on the
    length of the uploaded file, not on the number of pixels: an accepted
    upload that decodes to fewer than 256 pixels makes the embedding loop
    index past the end of the array, and the request fails with
    [IndexError]. *)
Theorem secure_small_array_raises (file : UploadFile) (arr : ndarray) (fmt : string) :
  768 <= Z.of_nat (length (file_data file)) ->
  image_bytes_to_rgb_array (file_data file) = Ok (arr, fmt) ->
  (length (pixels arr) < 256)%nat ->
  secure_image file = Raise IndexError.
Proof.
  intros Hlen Hdec Hsmall. unfold secure_image.
  destruct (Z.ltb_spec (Z.of_nat (length (file_data file))) MIN_BYTES) as [Hlt |];
    [change MIN_BYTES with 768 in Hlt; lia |].
  rewrite Hdec. cbn [mbind result_bind].
  rewrite embed_short by (unfold reshape_flat; lia).
  reflexivity.
Qed.

(** A successful run of [authenticate_image] up to the comparison. *)
Lemma authenticate_state_Ok_inv (file : UploadFile) (st : auth_state) :
  authenticate_state file = Ok st ->
  exists arr : ndarray,
    let data := file_data file in
    let original_bits :=
      unpack_bytes_to_bits (slice_from (- APPENDED_BYTES) data) (Some HASH_BITS) in
    800 <= Z.of_nat (length data) /\
    image_bytes_to_rgb_array (slice_to (- APPENDED_BYTES) data)
      = Ok (arr, restored_fmt st) /\
    (256 <= length (pixels arr))%nat /\
    embedded_bits st = pixel_lsb <$> take 256 (pixels arr) /\
    restored_arr st =
      reshape_as (zip_with embed_pixel (take 256 (pixels arr)) original_bits
                  ++ drop 256 (pixels arr)) arr /\
    computed_bits st =
      unpack_bytes_to_bits (sha256_digest (tobytes (restored_arr st)))
                           (Some HASH_BITS).
Proof.
  unfold authenticate_state. intros Hrun.
  destruct (Z.ltb_spec (Z.of_nat (length (file_data file)))
                       (MIN_BYTES + APPENDED_BYTES)) as [| Hmin];
    [discriminate |].
  change (MIN_BYTES + APPENDED_BYTES) with 800 in Hmin.
  destruct (image_bytes_to_rgb_array (slice_to (- APPENDED_BYTES) (file_data file)))
    as [[arr fmt] | e] eqn:Hdec; [| discriminate].
  cbn [mbind result_bind] in Hrun.
  destruct (extract (reshape_flat arr)) as [embedded | e] eqn:Hext;
    [| discriminate].
  cbn [mbind result_bind] in Hrun.
  apply extract_Ok_inv in Hext as [Hf ->]. unfold reshape_flat in *.
  assert (Hbits : length (unpack_bytes_to_bits
                            (slice_from (- APPENDED_BYTES) (file_data file))
                            (Some HASH_BITS)) = 256%nat).
  { apply unpack_256_of_32, slice_from_length. lia. }
  rewrite restore_ok in Hrun by lia.
  cbn [mbind result_bind] in Hrun.
  rewrite (take_ge (unpack_bytes_to_bits _ _)) in Hrun by lia.
  inversion Hrun; subst; clear Hrun. cbn.
  exists arr. repeat split; auto.
Qed.

(** What the comparison is made of, for any successful run. *)
Lemma authenticate_image_Ok_inv (file : UploadFile) (r : JSONResponse) :
  authenticate_image file = Ok r ->
  exists st : auth_state,
    authenticate_state file = Ok st /\ r = auth_response st /\
    length (embedded_bits st) = 256%nat /\
    (length (computed_bits st) <= 256)%nat.
Proof.
  unfold authenticate_image. intros Hrun.
  destruct (authenticate_state file) as [st | e] eqn:Hst; [| discriminate].
  cbn [mbind result_bind] in Hrun. inversion Hrun; subst; clear Hrun.
  exists st. split; [reflexivity |]. split; [reflexivity |].
  destruct (authenticate_state_Ok_inv file st Hst)
    as (arr & _ & _ & Hf & Hemb & _ & Hcomp).
  split.
  - rewrite Hemb, length_fmap, length_take. lia.
  - rewrite Hcomp. apply unpack_256_length.
Qed.

(** C10. In every successful run of [authenticate_image] the two outputs
    agree: [authentic] is true exactly when the reported percentage is
    100, and exactly when the percentage before rounding is 100, that is
    when all 256 positions match. The extracted sequence always has 256
    bits, and so has the recomputed one when the digest has 32 bytes. *)
Theorem authentic_iff_percent_100 (file : UploadFile) (r : JSONResponse) :
  authenticate_image file = Ok r ->
  exists st : auth_state,
    authenticate_state file = Ok st /\
    (authentic r = true <-> (authentication_percentage r == 100)%Q) /\
    (authentic r = true <->
     (auth_percent (computed_bits st) (embedded_bits st) == 100)%Q) /\
    (authentic r = true <->
     match_count (computed_bits st) (embedded_bits st) = 256) /\
    length (embedded_bits st) = 256%nat /\
    ((forall m, length (sha256_digest m) = 32%nat) ->
     length (computed_bits st) = 256%nat).
Proof.
  intros Hrun.
  destruct (authenticate_image_Ok_inv file r Hrun) as (st & Hst & -> & Hemb & Hcomp).
  exists st. split; [exact Hst |].
  pose proof (match_count_bounds (computed_bits st) (embedded_bits st)) as Hk.
  destruct (percent_100_iff (match_count (computed_bits st) (embedded_bits st)))
    as [Hexact Hround]; [lia |].
  assert (Hfull : authentic (auth_response st) = true <->
                  match_count (computed_bits st) (embedded_bits st) = 256).
  { unfold auth_response. cbn [authentic].
    rewrite bool_decide_eq_true. split.
    - intros Heq.
      apply (match_count_full (computed_bits st)) in Heq as Hcount.
      + rewrite Hcount, Heq, Hemb. reflexivity.
      + rewrite Heq at 1. reflexivity.
    - intros Hcount.
      assert (Hlen : length (computed_bits st) = 256%nat) by lia.
      apply match_count_full; [lia |]. rewrite Hcount, Hlen. reflexivity. }
  split; [| split; [| split; [exact Hfull | split; [exact Hemb |]]]].
  - rewrite Hfull. unfold auth_response. cbn [authentication_percentage].
    unfold auth_percent. symmetry. exact Hround.
  - rewrite Hfull. unfold auth_percent. symmetry. exact Hexact.
  - intros Hdigest.
    destruct (authenticate_state_Ok_inv file st Hst) as (arr & _ & _ & _ & _ & _ & ->).
    apply unpack_256_of_32, Hdigest.
Qed.

(** C5 (as the code has it). In every successful run of
    [authenticate_image], [authentic] is the exact equality of the
    recomputed digest bits and the extracted bits, so any differing bit
    makes it false whatever the percentage; the percentage computed is
    [100 * match_count / 256], where [match_count] is the number of
    positions in [0,256) at which the two sequences agree; and the
    percentage reported in the response is that value rounded to two
    decimal places. *)
Theorem authenticate_decision (file : UploadFile) (r : JSONResponse) :
  authenticate_image file = Ok r ->
  exists st : auth_state,
    authenticate_state file = Ok st /\
    authentic r = bool_decide (computed_bits st = embedded_bits st) /\
    (computed_bits st <> embedded_bits st -> authentic r = false) /\
    match_count (computed_bits st) (embedded_bits st)
      = Z.of_nat (agreements (computed_bits st) (embedded_bits st) 256) /\
    (auth_percent (computed_bits st) (embedded_bits st)
     == inject_Z (100 * match_count (computed_bits st) (embedded_bits st))
        / inject_Z 256)%Q /\
    authentication_percentage r
      = py_round (auth_percent (computed_bits st) (embedded_bits st)) 2.
Proof.
  intros Hrun.
  destruct (authenticate_image_Ok_inv file r Hrun) as (st & Hst & -> & Hemb & Hcomp).
  exists st. split; [exact Hst |]. split; [reflexivity |]. split.
  { intros Hne. unfold auth_response. cbn [authentic].
    now apply bool_decide_eq_false. }
  split; [apply match_count_agreements; lia |].
  split; [| reflexivity].
  unfold auth_percent. change HASH_BITS with 256.
  rewrite inject_Z_mult. field.
Qed.

Context {LL : LosslessImageLib}.

(** C2 (as the code has it). With a lossless image library, for every
    upload that [secure_image] accepts and whose secured buffer is at least
    800 bytes long, authenticating the unmodified secured buffer succeeds
    with [authentic = true] and a reported percentage of 100; the restored
    array is the array decoded from the upload. *)
Theorem secure_then_authenticate
    (file : UploadFile) (resp : StreamingResponse) (name : string) :
  secure_image file = Ok resp ->
  800 <= Z.of_nat (length (content resp)) ->
  exists (r : JSONResponse) (st : auth_state) (fmt : string),
    authenticate_image {| filename := name; file_data := content resp |} = Ok r /\
    authentic r = true /\
    (authentication_percentage r == 100)%Q /\
    message r = "Image authentic (untampered)."%string /\
    authenticate_state {| filename := name; file_data := content resp |} = Ok st /\
    image_bytes_to_rgb_array (file_data file) = Ok (restored_arr st, fmt).
Proof.
  intros Hsec Hsize.
  destruct (secure_image_Ok_inv file resp Hsec)
    as (arr & fmt & trailer & _ & Hdec & Hf & Hbl & _ & Htl & Hunpack & Hcontent).
  set (bits := digest_bits_of arr) in *.
  pose proof (decode_wf _ _ _ Hdec) as [Hshape Hwf].
  assert (Hbits : Forall is_bit bits) by apply unpack_are_bits.
  rewrite <- (take_ge bits 256) in Hcontent by lia.
  set (modified := zip_with embed_pixel (take 256 (pixels arr)) (take 256 bits)
                   ++ drop 256 (pixels arr)) in *.
  assert (Hmwf : wf_ndarray (reshape_as modified arr)).
  { split; cbn [reshape_as pixels shape].
    - unfold modified. rewrite embedded_length by lia. exact Hshape.
    - now apply embedded_wf. }
  destruct (decode_encode _ fmt Hmwf) as [fmt' Hdec'].
  assert (Hstate :
    authenticate_state {| filename := name; file_data := content resp |}
    = Ok {| restored_arr := arr; restored_fmt := fmt';
            computed_bits := bits; embedded_bits := bits |}).
  { unfold authenticate_state. cbn [file_data].
    destruct (Z.ltb_spec (Z.of_nat (length (content resp)))
                         (MIN_BYTES + APPENDED_BYTES)) as [Hlt |];
      [change (MIN_BYTES + APPENDED_BYTES) with 800 in Hlt; lia |].
    rewrite Hcontent, slice_to_trailer, slice_from_trailer by exact Htl.
    rewrite Hdec'. cbn [mbind result_bind].
    unfold reshape_flat, reshape_as. cbn [pixels shape].
    unfold modified. rewrite extract_embedded by (auto; lia).
    cbn [mbind result_bind].
    rewrite Hunpack, restore_embedded by (auto; lia).
    cbn [mbind result_bind].
    destruct arr as [sh px]. reflexivity. }
  eexists _, _, fmt. unfold authenticate_image. rewrite Hstate.
  cbn [mbind result_bind].
  split; [reflexivity |].
  assert (Hauth : bool_decide (bits = bits) = true)
    by now apply bool_decide_eq_true.
  unfold auth_response.
  cbn [authentic authentication_percentage message computed_bits embedded_bits
       restored_arr].
  rewrite Hauth.
  split; [reflexivity |]. split; [| split; [reflexivity | split; [reflexivity | exact Hdec]]].
  pose proof (match_count_bounds bits bits) as Hk.
  destruct (percent_100_iff (match_count bits bits)) as [_ Hround]; [lia |].
  apply Hround.
  replace 256 with (Z.of_nat (length bits)) by (rewrite Hbl; reflexivity).
  now apply match_count_full.
Qed.

End Pipelines.

(** ** The small container is a lossless image library *)

Lemma parse_unary_app (n : nat) (rest : list Z) :
  parse_unary (unary n ++ rest) = Some (n, rest).
Proof.
  unfold unary. induction n as [| n IH]; [reflexivity |].
  cbn [replicate app parse_unary]. change (1 =? 0) with false. cbv iota.
  now rewrite IH.
Qed.

Lemma parse_pixels_wf (n : nat) :
  forall (bs : list Z) (ps : list pixel),
    parse_pixels n bs = Some ps ->
    length ps = n /\ Forall wf_pixel ps.
Proof.
  induction n as [| n IH]; intros bs ps Hparse; simpl in Hparse.
  - inversion Hparse. split; [reflexivity | constructor].
  - destruct bs as [| r [| g [| b rest]]]; try discriminate.
    destruct (parse_pixels n rest) as [ps' |] eqn:Hrest; [| discriminate].
    inversion Hparse; subst. destruct (IH _ _ Hrest) as [Hlen Hwf].
    split; [simpl; lia |].
    constructor; [| exact Hwf].
    unfold wf_pixel, is_byte.
    pose proof (Z.mod_pos_bound r 256). pose proof (Z.mod_pos_bound g 256).
    pose proof (Z.mod_pos_bound b 256). lia.
Qed.

Lemma parse_pixels_bytes (ps : list pixel) (rest : list Z) :
  Forall wf_pixel ps ->
  parse_pixels (length ps) (flat_map pixel_bytes ps ++ rest) = Some ps.
Proof.
  induction 1 as [| [[r g] b] ps (Hr & Hg & Hb) _ IH]; [reflexivity |].
  cbn [length flat_map pixel_bytes app parse_pixels]. rewrite IH.
  unfold is_byte in *. now rewrite !Z.mod_small by lia.
Qed.

Lemma toy_lossless : @LosslessImageLib toy_image.
Proof.
  split; cbn [image_bytes_to_rgb_array rgb_array_to_image_bytes toy_image].
  - intros bs arr fmt. unfold toy_decode.
    destruct bs as [| mode bs1]; [discriminate |].
    destruct (parse_unary bs1) as [[h bs2] |]; [| discriminate].
    destruct (parse_unary bs2) as [[w payload] |]; [| discriminate].
    destruct (mode =? 0).
    + destruct (parse_pixels (h * w) payload) as [ps |] eqn:Hps; [| discriminate].
      intros Hok. inversion Hok; subst.
      apply parse_pixels_wf in Hps as [Hlen Hwf]. now split.
    + destruct (parse_pixels 1 payload) as [[| p [| ? ?]] |] eqn:Hps;
        try discriminate.
      intros Hok. inversion Hok; subst.
      apply parse_pixels_wf in Hps as [_ Hwf]. inversion Hwf; subst.
      split; cbn [pixels shape fst snd].
      * apply length_replicate.
      * now apply Forall_replicate.
  - intros [[h w] px] fmt [Hlen Hwf]. cbn [pixels shape fst snd] in Hlen, Hwf.
    exists "PNG"%string. unfold toy_encode, toy_decode. cbn [pixels shape fst snd].
    destruct px as [| p px].
    + rewrite parse_unary_app.
      rewrite <- (app_nil_r (unary w)), parse_unary_app.
      change (0 =? 0) with true. cbv iota.
      simpl in Hlen. rewrite <- Hlen. reflexivity.
    + destruct (bool_decide (p :: px = replicate (length (p :: px)) p)) eqn:Huni.
      * apply bool_decide_eq_true in Huni.
        rewrite <- app_assoc, parse_unary_app, parse_unary_app.
        change (1 =? 0) with false. cbv iota.
        inversion Hwf as [| ? ? Hp _]; subst.
        pose proof (parse_pixels_bytes [p] [] ltac:(constructor; auto)) as Hone.
        cbn [length flat_map] in Hone. rewrite !app_nil_r in Hone.
        rewrite Hone, <- Hlen, <- Huni. reflexivity.
      * rewrite <- app_assoc, !parse_unary_app.
        change (0 =? 0) with true. cbv iota.
        rewrite <- (app_nil_r (flat_map pixel_bytes (p :: px))).
        rewrite <- Hlen, parse_pixels_bytes by assumption. reflexivity.
Qed.

(** ** The pipelines on the sample uploads *)

Lemma secure_output_layout_witness :
  exists resp : StreamingResponse,
    @secure_image toy_image toy_hash sample_file = Ok resp /\
    exists (arr : ndarray) (fmt : string) (modified : list pixel)
           (original_lsb_bits trailer : list Z),
      toy_decode (file_data sample_file) = Ok (arr, fmt) /\
      embed (reshape_flat arr)
            (unpack_bytes_to_bits (@sha256_digest toy_hash (tobytes arr))
                                  (Some HASH_BITS))
        = Ok (modified, original_lsb_bits) /\
      original_lsb_bits = pixel_lsb <$> take 256 (pixels arr) /\
      length original_lsb_bits = 256%nat /\
      pack_bits_to_bytes original_lsb_bits = Ok trailer /\
      length trailer = 32%nat /\
      unpack_bytes_to_bits trailer (Some HASH_BITS) = original_lsb_bits /\
      content resp = toy_encode (reshape_as modified arr) fmt ++ trailer /\
      length (content resp)
        = (length (toy_encode (reshape_as modified arr) fmt) + 32)%nat.
Proof.
  eexists. split; [vm_compute; reflexivity |].
  apply (secure_output_layout (IL := toy_image) (HL := toy_hash) sample_file).
  vm_compute. reflexivity.
Defined.

Lemma size_rejection_witness :
  @secure_image toy_image toy_hash short_file =
    Raise (HTTPException 400
      "Image too small to secure. Must have at least 6144 bits (256 pixels).") /\
  @authenticate_image toy_image toy_hash toy_base64 short_file =
    Raise (HTTPException 400
      "Image too small or lacks appended data. Must have at least 6144 bits (256 pixels).").
Proof.
  destruct (size_rejection (IL := toy_image) (HL := toy_hash) (BL := toy_base64)
                           short_file) as [Hsec Hauth].
  split; [apply Hsec | apply Hauth]; vm_compute; reflexivity.
Defined.

Lemma secure_small_array_raises_witness :
  768 <= Z.of_nat (length (file_data small_file)) /\
  toy_decode (file_data small_file) = Ok (small_arr, "PNG"%string) /\
  (length (pixels small_arr) < 256)%nat /\
  @secure_image toy_image toy_hash small_file = Raise IndexError.
Proof.
  assert (Hlen : 768 <= Z.of_nat (length (file_data small_file)))
    by (apply Z.leb_le; vm_compute; reflexivity).
  assert (Hdec : toy_decode (file_data small_file) = Ok (small_arr, "PNG"%string))
    by (vm_compute; reflexivity).
  assert (Hsmall : (length (pixels small_arr) < 256)%nat)
    by (apply Nat.ltb_lt; vm_compute; reflexivity).
  split; [exact Hlen | split; [exact Hdec | split; [exact Hsmall |]]].
  exact (secure_small_array_raises (IL := toy_image) (HL := toy_hash)
           small_file small_arr "PNG" Hlen Hdec Hsmall).
Defined.

Lemma authentic_iff_percent_100_witness :
  exists r : JSONResponse,
    @authenticate_image toy_image toy_hash toy_base64 tampered_sample = Ok r /\
    exists st : auth_state,
      @authenticate_state toy_image toy_hash tampered_sample = Ok st /\
      (authentic r = true <-> (authentication_percentage r == 100)%Q) /\
      (authentic r = true <->
       (auth_percent (computed_bits st) (embedded_bits st) == 100)%Q) /\
      (authentic r = true <->
       match_count (computed_bits st) (embedded_bits st) = 256) /\
      length (embedded_bits st) = 256%nat /\
      ((forall m, length (@sha256_digest toy_hash m) = 32%nat) ->
       length (computed_bits st) = 256%nat).
Proof.
  eexists. split; [vm_compute; reflexivity |].
  apply (authentic_iff_percent_100 (IL := toy_image) (HL := toy_hash)
           (BL := toy_base64) tampered_sample).
  vm_compute. reflexivity.
Defined.

Lemma authenticate_decision_witness :
  exists r : JSONResponse,
    @authenticate_image toy_image toy_hash toy_base64 tampered_sample = Ok r /\
    exists st : auth_state,
      @authenticate_state toy_image toy_hash tampered_sample = Ok st /\
      authentic r = bool_decide (computed_bits st = embedded_bits st) /\
      (computed_bits st <> embedded_bits st -> authentic r = false) /\
      match_count (computed_bits st) (embedded_bits st)
        = Z.of_nat (agreements (computed_bits st) (embedded_bits st) 256) /\
      (auth_percent (computed_bits st) (embedded_bits st)
       == inject_Z (100 * match_count (computed_bits st) (embedded_bits st))
          / inject_Z 256)%Q /\
      authentication_percentage r
        = py_round (auth_percent (computed_bits st) (embedded_bits st)) 2.
Proof.
  eexists. split; [vm_compute; reflexivity |].
  apply (authenticate_decision (IL := toy_image) (HL := toy_hash)
           (BL := toy_base64) tampered_sample).
  vm_compute. reflexivity.
Defined.

(** One flipped embedded bit: 255 of the 256 positions match, the
    percentage computed is 99.609375 and the response reports 99.61. *)
Lemma reported_percentage_counterexample :
  exists (r : JSONResponse) (st : auth_state),
    @authenticate_image toy_image toy_hash toy_base64 tampered_sample = Ok r /\
    @authenticate_state toy_image toy_hash tampered_sample = Ok st /\
    match_count (computed_bits st) (embedded_bits st) = 255 /\
    (authentication_percentage r == 9961 # 100)%Q /\
    ~ (authentication_percentage r
       == inject_Z 100 * inject_Z (match_count (computed_bits st) (embedded_bits st))
          / inject_Z 256)%Q.
Proof.
  eexists _, _.
  split; [vm_compute; reflexivity |].
  split; [vm_compute; reflexivity |].
  split; [vm_compute; reflexivity |].
  split; [vm_compute; reflexivity |].
  vm_compute. discriminate.
Qed.

Lemma secure_then_authenticate_witness :
  exists resp : StreamingResponse,
    @secure_image toy_image toy_hash sample_file = Ok resp /\
    800 <= Z.of_nat (length (content resp)) /\
    exists (r : JSONResponse) (st : auth_state) (fmt : string),
      @authenticate_image toy_image toy_hash toy_base64
        {| filename := "secured_photo.png"; file_data := content resp |} = Ok r /\
      authentic r = true /\
      (authentication_percentage r == 100)%Q /\
      message r = "Image authentic (untampered)."%string /\
      @authenticate_state toy_image toy_hash
        {| filename := "secured_photo.png"; file_data := content resp |} = Ok st /\
      toy_decode (file_data sample_file) = Ok (restored_arr st, fmt).
Proof.
  eexists. split; [vm_compute; reflexivity |].
  split; [apply Z.leb_le; vm_compute; reflexivity |].
  apply (secure_then_authenticate (IL := toy_image) (HL := toy_hash)
           (BL := toy_base64) (LL := toy_lossless)
           sample_file _ "secured_photo.png").
  - vm_compute. reflexivity.
  - apply Z.leb_le. vm_compute. reflexivity.
Defined.

(** A black 16 x 16 image stored pixel by pixel takes 803 bytes and is
    accepted; the secured image compresses to 38 bytes, so the secured
    buffer has 70 bytes and [authenticate_image] rejects it as too small. *)
Lemma secure_then_authenticate_counterexample :
  @LosslessImageLib toy_image /\
  exists resp : StreamingResponse,
    @secure_image toy_image toy_hash black_file = Ok resp /\
    length (content resp) = 70%nat /\
    @authenticate_image toy_image toy_hash toy_base64
      {| filename := "secured_black.png"; file_data := content resp |}
    = Raise (HTTPException 400
        "Image too small or lacks appended data. Must have at least 6144 bits (256 pixels).") /\
    ~ (exists r : JSONResponse,
         @authenticate_image toy_image toy_hash toy_base64
           {| filename := "secured_black.png"; file_data := content resp |} = Ok r /\
         authentic r = true /\ (authentication_percentage r == 100)%Q).
Proof.
  split; [exact toy_lossless |].
  eexists. split; [vm_compute; reflexivity |].
  split; [vm_compute; reflexivity |].
  split; [vm_compute; reflexivity |].
  intros (r & Hrun & _). vm_compute in Hrun. discriminate Hrun.
Qed.

(** * Further properties of the code *)

(** ** Folding a pixel into an integer and back *)

Lemma fold_rgb_sum (r g b : Z) :
  wf_pixel (r, g, b) -> fold_rgb (r, g, b) = r * 65536 + g * 256 + b.
Proof.
  intros (Hr & Hg & Hb). unfold fold_rgb.
  assert (H1 : Z.land (Z.shiftl r 16) (Z.shiftl g 8) = 0).
  { apply Z.bits_inj'. intros m Hm.
    rewrite Z.land_spec, Z.bits_0, !Z.shiftl_spec by lia.
    destruct (Z.ltb_spec m 16).
    - rewrite (Z.testbit_neg_r r) by lia. reflexivity.
    - rewrite (testbit_byte_high g) by (auto; lia). apply andb_false_r. }
  assert (H2 : Z.land (Z.lor (Z.shiftl r 16) (Z.shiftl g 8)) b = 0).
  { apply Z.bits_inj'. intros n Hn.
    rewrite Z.land_spec, Z.bits_0, Z.lor_spec, !Z.shiftl_spec by lia.
    destruct (Z.ltb_spec n 8).
    - rewrite !Z.testbit_neg_r by lia. reflexivity.
    - rewrite (testbit_byte_high b) by (auto; lia). apply andb_false_r. }
  rewrite <- (Z.add_nocarry_lor _ _ H2), <- (Z.add_nocarry_lor _ _ H1).
  rewrite !Z.shiftl_mul_pow2 by lia. reflexivity.
Qed.

(** X1. On the channels of a [uint8] pixel, the folded value
    [(r << 16) | (g << 8) | b] is the 24-bit number [r * 65536 + g * 256 + b],
    and unfolding it with the shifts and masks of the loops gives the
    three channels back. *)
Theorem unfold_fold_rgb (r g b : Z) :
  wf_pixel (r, g, b) ->
  fold_rgb (r, g, b) = r * 65536 + g * 256 + b /\
  0 <= fold_rgb (r, g, b) < 2 ^ 24 /\
  unfold_rgb (fold_rgb (r, g, b)) = (r, g, b).
Proof.
  intros Hwf. pose proof (fold_rgb_sum r g b Hwf) as Hsum.
  split; [exact Hsum |]. split.
  - rewrite Hsum. destruct Hwf as (Hr & Hg & Hb). unfold is_byte in *.
    change (2 ^ 24) with 16777216. lia.
  - pose proof (restore_embed_pixel (r, g, b) (pixel_lsb (r, g, b)) Hwf
                  (pixel_lsb_is_bit _)) as Hrt.
    unfold embed_pixel at 1 in Hrt.
    replace (embed_pixel (r, g, b) (pixel_lsb (r, g, b))) with (r, g, b) in Hrt.
    + replace (set_lsb (fold_rgb (r, g, b)) (pixel_lsb (r, g, b)))
        with (fold_rgb (r, g, b)) in Hrt; [exact Hrt |].
      unfold pixel_lsb. apply Z.bits_inj'. intros n Hn.
      rewrite testbit_set_lsb by (auto using land_1_is_bit).
      destruct (Z.eqb_spec n 0) as [-> | Hne]; [| reflexivity].
      rewrite Z.land_spec. change (Z.testbit 1 0) with true.
      now rewrite andb_true_r.
    + rewrite embed_pixel_channels by (auto using pixel_lsb_is_bit).
      repeat f_equal. rewrite pixel_lsb_blue.
      apply Z.bits_inj'. intros n Hn.
      rewrite testbit_set_lsb by (auto using land_1_is_bit).
      destruct (Z.eqb_spec n 0) as [-> | Hne]; [| reflexivity].
      rewrite Z.land_spec. change (Z.testbit 1 0) with true.
      now rewrite andb_true_r.
Qed.

Lemma unfold_fold_rgb_witness :
  fold_rgb (18, 52, 86) = 18 * 65536 + 52 * 256 + 86 /\
  0 <= fold_rgb (18, 52, 86) < 2 ^ 24 /\
  unfold_rgb (fold_rgb (18, 52, 86)) = (18, 52, 86).
Proof.
  apply (unfold_fold_rgb 18 52 86).
  apply (bool_decide_unpack _). vm_compute. exact I.
Defined.

(** ** More on the bit packers *)

Lemma flat_map_byte_bits_length (bts : list Z) :
  length (flat_map byte_bits bts) = (8 * length bts)%nat.
Proof.
  induction bts as [| x l IH]; [reflexivity |].
  cbn [flat_map]. rewrite length_app, byte_bits_length, IH. simpl. lia.
Qed.

(** X2. [unpack_bytes_to_bits] gives eight values per input element, each
    of them 0 or 1 whatever integers the input holds; with [expected_bits]
    it gives that many when there are enough and all there are otherwise:
    an under-supply is a shorter list, not an error. *)
Theorem unpack_length_and_bits (bts : list Z) (n : nat) :
  length (unpack_bytes_to_bits bts None) = (8 * length bts)%nat /\
  length (unpack_bytes_to_bits bts (Some (Z.of_nat n)))
    = Nat.min n (8 * length bts) /\
  unpack_bytes_to_bits bts (Some (Z.of_nat n))
    = take n (unpack_bytes_to_bits bts None) /\
  Forall is_bit (unpack_bytes_to_bits bts None) /\
  Forall is_bit (unpack_bytes_to_bits bts (Some (Z.of_nat n))).
Proof.
  assert (Hsome : unpack_bytes_to_bits bts (Some (Z.of_nat n))
                  = take n (unpack_bytes_to_bits bts None)).
  { unfold unpack_bytes_to_bits, slice_to.
    destruct (Z.ltb_spec (Z.of_nat n) 0); [lia |].
    now rewrite Nat2Z.id. }
  split; [apply flat_map_byte_bits_length |].
  split; [rewrite Hsome, length_take; unfold unpack_bytes_to_bits;
          now rewrite flat_map_byte_bits_length |].
  split; [exact Hsome |].
  split; apply unpack_are_bits.
Qed.

(** A group that was packed lay within the list and gave a byte. *)
Lemma pack_group_Ok_inv (bit_list b b' : list Z) (i : nat) :
  pack_group bit_list i b = Ok b' ->
  (i + 8 <= length bit_list)%nat /\
  exists byte : Z, is_byte byte /\ b' = b ++ [byte].
Proof.
  intros Hrun.
  destruct (Nat.lt_ge_cases (length bit_list) (i + 8)) as [Hshort | Hlong];
    [rewrite pack_group_short in Hrun by assumption; discriminate |].
  split; [exact Hlong |].
  unfold pack_group in Hrun.
  destruct (for_each (pack_bit bit_list i) (range 8) 0) as [byte | e];
    [| discriminate].
  cbn [mbind result_bind] in Hrun. unfold bytearray_append in Hrun.
  destruct (Z.leb_spec 0 byte); [| discriminate].
  destruct (Z.ltb_spec byte 256); [| discriminate].
  inversion Hrun. exists byte. split; [split; assumption | reflexivity].
Qed.

Lemma pack_groups_Ok_inv (bit_list : list Z) (idxs : list nat) :
  forall b out : list Z,
    for_each (pack_group bit_list) idxs b = Ok out ->
    Forall (fun i => (i + 8 <= length bit_list)%nat) idxs /\
    length out = (length b + length idxs)%nat /\
    (Forall is_byte b -> Forall is_byte out).
Proof.
  induction idxs as [| i idxs IH]; intros b out Hrun.
  - inversion Hrun; subst. repeat split; [constructor | simpl; lia | auto].
  - cbn [for_each] in Hrun.
    destruct (pack_group bit_list i b) as [b' |] eqn:Hgroup; [| discriminate].
    cbn [mbind result_bind] in Hrun.
    apply pack_group_Ok_inv in Hgroup as (Hi & byte & Hbyte & ->).
    destruct (IH _ _ Hrun) as (Hall & Hlen & Hbytes).
    split; [constructor; assumption |].
    split; [rewrite Hlen, length_app; simpl; lia |].
    intros Hb. apply Hbytes, Forall_app. split; [exact Hb |].
    constructor; [exact Hbyte | constructor].
Qed.

(** X3. [pack_bits_to_bytes] never truncates and never pads: whenever it
    returns, on any list of integers, the input held exactly eight
    elements per returned byte, and every returned element is in
    [0, 256). *)
Theorem pack_never_truncates (bit_list out : list Z) :
  pack_bits_to_bytes bit_list = Ok out ->
  length bit_list = (8 * length out)%nat /\ Forall is_byte out.
Proof.
  unfold pack_bits_to_bytes, range_step. intros Hrun.
  apply pack_groups_Ok_inv in Hrun as (Hall & Hlen & Hbytes).
  rewrite length_map, length_seq in Hlen. cbn [length] in Hlen.
  split; [| apply Hbytes; constructor].
  pose proof (Nat.div_mod_eq (length bit_list + 8 - 1) 8) as Hdiv.
  pose proof (Nat.mod_upper_bound (length bit_list + 8 - 1) 8 ltac:(lia)) as Hmod.
  destruct ((length bit_list + 8 - 1) / 8)%nat as [| c] eqn:Hc; [lia |].
  rewrite seq_S, map_app in Hall. apply Forall_app in Hall as [_ Hlast].
  inversion Hlast as [| ? ? Hl _]. cbv beta in Hl. cbn [Nat.add] in Hl. lia.
Qed.

Lemma pack_never_truncates_witness :
  exists out : list Z,
    pack_bits_to_bytes sample_bits = Ok out /\
    length sample_bits = (8 * length out)%nat /\ Forall is_byte out.
Proof.
  eexists. split; [vm_compute; reflexivity |].
  apply (pack_never_truncates sample_bits). vm_compute. reflexivity.
Defined.

Lemma byte_of_bits_table :
  forallb (fun i : nat => byte_of_bits (byte_bits (Z.of_nat i)) =? Z.of_nat i)
          (seq 0 256) = true.
Proof. vm_compute. reflexivity. Qed.

Lemma byte_of_byte_bits (byte : Z) :
  is_byte byte -> byte_of_bits (byte_bits byte) = byte.
Proof.
  intros [Hlo Hhi]. pose proof byte_of_bits_table as Htab.
  rewrite forallb_forall in Htab.
  specialize (Htab (Z.to_nat byte) ltac:(apply in_seq; lia)).
  rewrite Z2Nat.id in Htab by lia. now apply Z.eqb_eq.
Qed.

Lemma flat_map_byte_bits_inj (l1 : list Z) :
  forall l2 : list Z,
    Forall is_byte l1 -> Forall is_byte l2 ->
    flat_map byte_bits l1 = flat_map byte_bits l2 -> l1 = l2.
Proof.
  induction l1 as [| a l1 IH]; intros [| b l2] H1 H2 Heq;
    try reflexivity; try discriminate.
  cbn [flat_map] in Heq.
  apply app_inj_1 in Heq as [Hhead Htail]; [| reflexivity].
  inversion H1; inversion H2; subst. f_equal.
  - rewrite <- (byte_of_byte_bits a), <- (byte_of_byte_bits b) by assumption.
    now rewrite Hhead.
  - now apply IH.
Qed.

(** X4. Packing what [unpack_bytes_to_bits] gives for a byte string
    returns that byte string: the two helpers are inverse in this order
    too. *)
Theorem pack_of_unpack (bts : list Z) :
  Forall is_byte bts ->
  pack_bits_to_bytes (unpack_bytes_to_bits bts None) = Ok bts.
Proof.
  intros Hbytes. unfold unpack_bytes_to_bits.
  destruct (pack_ok (flat_map byte_bits bts) (length bts))
    as (out & Hpack & Hlen & Hflat).
  - rewrite flat_map_byte_bits_length. lia.
  - apply (unpack_are_bits bts None).
  - rewrite Hpack. f_equal.
    apply flat_map_byte_bits_inj; try assumption.
    unfold pack_bits_to_bytes in Hpack.
    apply pack_groups_Ok_inv in Hpack as (_ & _ & Hout).
    apply Hout. constructor.
Qed.

Lemma pack_of_unpack_witness :
  pack_bits_to_bytes (unpack_bytes_to_bits [0; 1; 127; 128; 161; 255] None)
  = Ok [0; 1; 127; 128; 161; 255].
Proof.
  apply (pack_of_unpack [0; 1; 127; 128; 161; 255]).
  apply (bool_decide_unpack _). vm_compute. exact I.
Defined.

(** ** More on the per-pixel loops *)

(** X5. The embedding keeps a [uint8] array a [uint8] array of the same
    shape: every channel written stays in [0, 255], the number of pixels
    is unchanged, and the 256 recorded values are bits. *)
Theorem embed_keeps_uint8
    (arr : ndarray) (digest_bits : list Z)
    (modified : list pixel) (original_lsb_bits : list Z) :
  wf_ndarray arr ->
  Forall is_bit digest_bits ->
  embed (reshape_flat arr) digest_bits = Ok (modified, original_lsb_bits) ->
  wf_ndarray (reshape_as modified arr) /\
  shape (reshape_as modified arr) = shape arr /\
  length original_lsb_bits = 256%nat /\
  Forall is_bit original_lsb_bits.
Proof.
  intros [Hshape Hwf] Hbits Hrun.
  apply embed_Ok_inv in Hrun as (Hf & Hb & -> & ->).
  unfold reshape_flat in *.
  split; [split |]; cbn [reshape_as pixels shape].
  - rewrite embedded_length by assumption. exact Hshape.
  - now apply embedded_wf.
  - split; [reflexivity |]. split.
    + rewrite length_fmap, length_take. lia.
    + apply pixel_lsbs_are_bits.
Qed.

Lemma embed_keeps_uint8_witness :
  exists (modified : list pixel) (original_lsb_bits : list Z),
    embed (reshape_flat sample_arr) sample_bits
      = Ok (modified, original_lsb_bits) /\
    wf_ndarray (reshape_as modified sample_arr) /\
    shape (reshape_as modified sample_arr) = shape sample_arr /\
    length original_lsb_bits = 256%nat /\
    Forall is_bit original_lsb_bits.
Proof.
  eexists _, _. split; [vm_compute; reflexivity |].
  apply (embed_keeps_uint8 sample_arr sample_bits).
  - apply (bool_decide_unpack _). vm_compute. exact I.
  - apply (bool_decide_unpack _). vm_compute. exact I.
  - vm_compute. reflexivity.
Defined.

(** X6. What [secure_image] writes, [authenticate_image] reads: the
    extraction loop run on an embedded buffer returns exactly the 256
    digest bits that were embedded, and the bits the embedding recorded
    are what the extraction loop returns on the original buffer. *)
Theorem extract_of_embed (flat : list pixel) (digest_bits : list Z) :
  (256 <= length flat)%nat ->
  Forall wf_pixel flat ->
  length digest_bits = 256%nat ->
  Forall is_bit digest_bits ->
  exists (modified : list pixel) (original_lsb_bits : list Z),
    embed flat digest_bits = Ok (modified, original_lsb_bits) /\
    extract modified = Ok digest_bits /\
    extract flat = Ok original_lsb_bits.
Proof.
  intros Hf Hwf Hb Hbits. eexists _, _.
  rewrite embed_ok by lia. split; [reflexivity |].
  split; [now apply extract_embedded | now apply extract_ok].
Qed.

Lemma extract_of_embed_witness :
  exists (modified : list pixel) (original_lsb_bits : list Z),
    embed (pixels sample_arr) sample_bits = Ok (modified, original_lsb_bits) /\
    extract modified = Ok sample_bits /\
    extract (pixels sample_arr) = Ok original_lsb_bits.
Proof.
  apply (extract_of_embed (pixels sample_arr) sample_bits).
  - apply Nat.leb_le. vm_compute. reflexivity.
  - apply (bool_decide_unpack _). vm_compute. exact I.
  - reflexivity.
  - apply (bool_decide_unpack _). vm_compute. exact I.
Defined.

(** X7. The reconstruction loop of [authenticate_image], on any buffer of
    at least 256 [uint8] pixels and any 256 trailer bits: it succeeds,
    keeps the number of pixels and the channel range, makes the LSBs of
    the first 256 pixels equal to the trailer bits, and leaves every pixel
    from index 256 on as submitted, so a change there is not undone. *)
Theorem restore_effect (flat : list pixel) (original_bits : list Z) :
  (256 <= length flat)%nat ->
  Forall wf_pixel flat ->
  length original_bits = 256%nat ->
  Forall is_bit original_bits ->
  exists restored : list pixel,
    restore flat original_bits = Ok restored /\
    length restored = length flat /\
    Forall wf_pixel restored /\
    extract restored = Ok original_bits /\
    (forall i : nat, (256 <= i)%nat -> restored !! i = flat !! i).
Proof.
  intros Hf Hwf Hb Hbits. eexists.
  rewrite restore_ok by lia. split; [reflexivity |].
  split; [apply embedded_length; lia |].
  split; [now apply embedded_wf |].
  split; [now apply extract_embedded |].
  intros i Hi.
  rewrite lookup_app_r by (rewrite length_zip_with, !length_take; lia).
  rewrite length_zip_with, !length_take, lookup_drop. f_equal. lia.
Qed.

Lemma restore_effect_witness :
  exists restored : list pixel,
    restore (pixels sample_arr) sample_bits = Ok restored /\
    length restored = length (pixels sample_arr) /\
    Forall wf_pixel restored /\
    extract restored = Ok sample_bits /\
    (forall i : nat, (256 <= i)%nat -> restored !! i = pixels sample_arr !! i).
Proof.
  apply (restore_effect (pixels sample_arr) sample_bits).
  - apply Nat.leb_le. vm_compute. reflexivity.
  - apply (bool_decide_unpack _). vm_compute. exact I.
  - reflexivity.
  - apply (bool_decide_unpack _). vm_compute. exact I.
Defined.

(** ** Outcomes of the two handlers *)

Lemma match_count_256_eq (xs ys : list Z) :
  length ys = 256%nat -> (length xs <= 256)%nat ->
  match_count xs ys = 256 -> xs = ys.
Proof.
  intros Hy Hx Hcount.
  pose proof (match_count_bounds xs ys) as Hk.
  assert (Hlen : length xs = 256%nat) by lia.
  apply match_count_full; [lia |]. rewrite Hcount, Hlen. reflexivity.
Qed.

(** Every count of matches gives a percentage in [0, 100], and at most
    99.61 below 256 matches; checked on each of the 257 counts. *)
Lemma percent_range_table :
  forallb (fun i : nat =>
             let k := Z.of_nat i in
             let p := py_round ((inject_Z k / inject_Z HASH_BITS) * inject_Z 100)%Q 2 in
             Qle_bool 0%Q p && Qle_bool p 100%Q &&
             ((k =? 256) || Qle_bool p (9961 # 100)%Q))
          (seq 0 257) = true.
Proof. vm_compute. reflexivity. Qed.

Section Outcomes.
Context {IL : ImageLib} {HL : HashLib} {BL : Base64Lib}.


(** X9. [authenticate_image] returns a response exactly when the buffer
    has at least 800 bytes and, without its last 32 bytes, decodes to an
    array of at least 256 pixels. Neither the content of the trailer nor
    the digest can make it fail. *)
Theorem authenticate_succeeds_iff (file : UploadFile) :
  (exists r : JSONResponse, authenticate_image file = Ok r) <->
  (800 <= Z.of_nat (length (file_data file)) /\
   exists (arr : ndarray) (fmt : string),
     image_bytes_to_rgb_array (slice_to (- APPENDED_BYTES) (file_data file))
       = Ok (arr, fmt) /\
     (256 <= length (pixels arr))%nat).
Proof.
  split.
  - intros [r Hrun].
    destruct (authenticate_image_Ok_inv file r Hrun) as (st & Hst & _).
    destruct (authenticate_state_Ok_inv file st Hst)
      as (arr & Hmin & Hdec & Hf & _).
    split; [exact Hmin |]. exists arr, (restored_fmt st). split; assumption.
  - intros (Hmin & arr & fmt & Hdec & Hf).
    unfold authenticate_image, authenticate_state.
    destruct (Z.ltb_spec (Z.of_nat (length (file_data file)))
                         (MIN_BYTES + APPENDED_BYTES)) as [Hlt |];
      [change (MIN_BYTES + APPENDED_BYTES) with 800 in Hlt; lia |].
    rewrite Hdec. cbn [mbind result_bind].
    rewrite extract_ok by exact Hf. cbn [mbind result_bind].
    rewrite restore_ok.
    + cbn [mbind result_bind]. eexists. reflexivity.
    + exact Hf.
    + rewrite unpack_256_of_32; [lia |]. apply slice_from_length. lia.
Qed.

(** X10. A decoder failure is handled differently by the two handlers:
    [secure_image] lets the library's exception through unchanged, while
    [authenticate_image] turns it into an HTTP 400 whose detail is
    "Invalid image bytes: " followed by the exception's text. *)
Theorem decode_failure_handling (file : UploadFile) (e : exn) :
  (768 <= Z.of_nat (length (file_data file)) ->
   image_bytes_to_rgb_array (file_data file) = Raise e ->
   secure_image file = Raise e) /\
  (800 <= Z.of_nat (length (file_data file)) ->
   image_bytes_to_rgb_array (slice_to (- APPENDED_BYTES) (file_data file))
     = Raise e ->
   authenticate_image file =
   Raise (HTTPException 400
            (String.append "Invalid image bytes: " (exn_str e)))).
Proof.
  split; intros Hmin Hdec.
  - unfold secure_image.
    destruct (Z.ltb_spec (Z.of_nat (length (file_data file))) MIN_BYTES) as [Hlt |];
      [change MIN_BYTES with 768 in Hlt; lia |].
    now rewrite Hdec.
  - unfold authenticate_image, authenticate_state.
    destruct (Z.ltb_spec (Z.of_nat (length (file_data file)))
                         (MIN_BYTES + APPENDED_BYTES)) as [Hlt |];
      [change (MIN_BYTES + APPENDED_BYTES) with 800 in Hlt; lia |].
    now rewrite Hdec.
Qed.

(** X11. [authenticate_image] has the same gap as [secure_image]: a
    buffer of at least 800 bytes whose image decodes to fewer than 256
    pixels makes the extraction loop index past the end of the array, and
    the request fails with [IndexError] instead of an HTTP 400. *)
Theorem authenticate_small_array_raises
    (file : UploadFile) (arr : ndarray) (fmt : string) :
  800 <= Z.of_nat (length (file_data file)) ->
  image_bytes_to_rgb_array (slice_to (- APPENDED_BYTES) (file_data file))
    = Ok (arr, fmt) ->
  (length (pixels arr) < 256)%nat ->
  authenticate_image file = Raise IndexError.
Proof.
  intros Hmin Hdec Hsmall. unfold authenticate_image, authenticate_state.
  destruct (Z.ltb_spec (Z.of_nat (length (file_data file)))
                       (MIN_BYTES + APPENDED_BYTES)) as [Hlt |];
    [change (MIN_BYTES + APPENDED_BYTES) with 800 in Hlt; lia |].
  rewrite Hdec. cbn [mbind result_bind].
  now rewrite extract_short by exact Hsmall.
Qed.

(** X12. In every successful run of [authenticate_image] the reported
    percentage lies between 0 and 100, and whenever [authentic] is false
    it is at most 99.61. *)
Theorem reported_percentage_range (file : UploadFile) (r : JSONResponse) :
  authenticate_image file = Ok r ->
  (0 <= authentication_percentage r)%Q /\
  (authentication_percentage r <= 100)%Q /\
  (authentic r = false -> (authentication_percentage r <= 9961 # 100)%Q).
Proof.
  intros Hrun.
  destruct (authenticate_image_Ok_inv file r Hrun) as (st & Hst & -> & Hemb & Hcomp).
  pose proof (match_count_bounds (computed_bits st) (embedded_bits st)) as Hk.
  pose proof percent_range_table as Htab.
  rewrite forallb_forall in Htab.
  specialize (Htab (Z.to_nat (match_count (computed_bits st) (embedded_bits st)))
                   ltac:(apply in_seq; lia)).
  rewrite Z2Nat.id in Htab by lia. cbv zeta in Htab.
  apply andb_prop in Htab as [Hrange Hbelow].
  apply andb_prop in Hrange as [Hlo Hhi].
  apply Qle_bool_iff in Hlo, Hhi.
  unfold auth_response. cbn [authentication_percentage authentic].
  unfold auth_percent.
  split; [exact Hlo |]. split; [exact Hhi |].
  intros Hfalse. apply bool_decide_eq_false in Hfalse.
  apply orb_prop in Hbelow as [Hfull | Hle]; [| now apply Qle_bool_iff].
  apply Z.eqb_eq in Hfull. exfalso. apply Hfalse.
  now apply match_count_256_eq.
Qed.

End Outcomes.

Section Tampering.
Context {IL : ImageLib} {HL : HashLib} {BL : Base64Lib} {LL : LosslessImageLib}.

(** X13. Tampering with the embedded bits is detected and undone. Take
    the array decoded from an upload, the trailer [secure_image] makes for
    it, and an image that differs from that array only in that the LSBs
    of its first 256 pixels hold any 256 bits. With a lossless image
    library, authenticating that image with the trailer restores the
    original array, reads the 256 bits back, recomputes the digest bits
    of the original, and reports [authentic] exactly when the bits held
    are those digest bits. *)
Theorem lsb_tampering_detected
    (arr : ndarray) (fmt name : string) (trailer held_bits : list Z) :
  wf_ndarray arr ->
  (256 <= length (pixels arr))%nat ->
  pack_bits_to_bytes (pixel_lsb <$> take 256 (pixels arr)) = Ok trailer ->
  length held_bits = 256%nat ->
  Forall is_bit held_bits ->
  let carrier :=
    reshape_as (zip_with embed_pixel (take 256 (pixels arr)) held_bits
                ++ drop 256 (pixels arr)) arr in
  let buffer := rgb_array_to_image_bytes carrier fmt ++ trailer in
  let digest_bits :=
    unpack_bytes_to_bits (sha256_digest (tobytes arr)) (Some HASH_BITS) in
  800 <= Z.of_nat (length buffer) ->
  exists (r : JSONResponse) (st : auth_state),
    authenticate_image {| filename := name; file_data := buffer |} = Ok r /\
    authenticate_state {| filename := name; file_data := buffer |} = Ok st /\
    restored_arr st = arr /\
    embedded_bits st = held_bits /\
    computed_bits st = digest_bits /\
    (authentic r = true <-> held_bits = digest_bits).
Proof.
  intros [Hshape Hwf] Hf Hpack Hlen Hbits carrier buffer digest_bits Hsize.
  destruct (pack_unpack_256 (pixel_lsb <$> take 256 (pixels arr)))
    as (trailer' & Hpack' & Htl & Hunpack).
  { rewrite length_fmap, length_take. lia. }
  { apply pixel_lsbs_are_bits. }
  rewrite Hpack in Hpack'. inversion Hpack'; subst trailer'; clear Hpack'.
  assert (Hcarrier : carrier =
            reshape_as (zip_with embed_pixel (take 256 (pixels arr))
                          (take 256 held_bits) ++ drop 256 (pixels arr)) arr)
    by (unfold carrier; now rewrite (take_ge held_bits) by lia).
  assert (Hcwf : wf_ndarray carrier).
  { rewrite Hcarrier. split; cbn [reshape_as pixels shape].
    - rewrite embedded_length by lia. exact Hshape.
    - now apply embedded_wf. }
  destruct (decode_encode _ fmt Hcwf) as [fmt' Hdec].
  assert (Hstate :
    authenticate_state {| filename := name; file_data := buffer |}
    = Ok {| restored_arr := arr; restored_fmt := fmt';
            computed_bits := digest_bits; embedded_bits := held_bits |}).
  { unfold authenticate_state. cbn [file_data].
    destruct (Z.ltb_spec (Z.of_nat (length buffer))
                         (MIN_BYTES + APPENDED_BYTES)) as [Hlt |];
      [change (MIN_BYTES + APPENDED_BYTES) with 800 in Hlt; lia |].
    unfold buffer. rewrite slice_to_trailer, slice_from_trailer by exact Htl.
    rewrite Hdec. cbn [mbind result_bind].
    rewrite Hcarrier. unfold reshape_flat, reshape_as. cbn [pixels shape].
    rewrite extract_embedded by (auto; lia).
    cbn [mbind result_bind].
    rewrite Hunpack, restore_embedded by (auto; lia).
    cbn [mbind result_bind].
    destruct arr as [sh px]. reflexivity. }
  eexists _, _. unfold authenticate_image. rewrite Hstate.
  cbn [mbind result_bind].
  split; [reflexivity |]. split; [reflexivity |].
  cbn [restored_arr embedded_bits computed_bits].
  split; [reflexivity |]. split; [reflexivity |]. split; [reflexivity |].
  unfold auth_response. cbn [authentic computed_bits embedded_bits].
  rewrite bool_decide_eq_true. split; congruence.
Qed.

End Tampering.

(** ** Downloads *)

Section Downloads.
Context {OL : OsLib}.

(** X14. For a file name that does not start with "/", [download_restored]
    looks in [/tmp] first and in the working directory second: a file in
    [/tmp] is served even when the working directory has one of the same
    name, the working directory is used only when [/tmp] has none, and
    when neither has it the result is an HTTP 404 "file not found". *)
Theorem download_restored_lookup_order (filename : string) :
  starts_with_sep filename = false ->
  let tmp_path := String.append "/tmp/" filename in
  let cwd_path := path_join getcwd filename in
  (path_exists tmp_path = true ->
   download_restored filename = stream_file tmp_path) /\
  (path_exists tmp_path = false -> path_exists cwd_path = true ->
   download_restored filename = stream_file cwd_path) /\
  (path_exists tmp_path = false -> path_exists cwd_path = false ->
   download_restored filename = Raise (HTTPException 404 "file not found")).
Proof.
  intros Hrel tmp_path cwd_path.
  assert (Hjoin : path_join "/tmp" filename = tmp_path).
  { unfold path_join. rewrite Hrel. reflexivity. }
  unfold download_restored. cbn [download_from]. rewrite Hjoin.
  fold cwd_path.
  repeat split.
  - intros Htmp. now rewrite Htmp.
  - intros Htmp Hcwd. now rewrite Htmp, Hcwd.
  - intros Htmp Hcwd. now rewrite Htmp, Hcwd.
Qed.

(** X15. For a file name that starts with "/", [os.path.join] drops the
    directory: [download_restored] serves that absolute path if it exists,
    wherever it is, and answers 404 otherwise; neither [/tmp] nor the
    working directory is consulted. *)
Theorem download_restored_absolute (filename : string) :
  starts_with_sep filename = true ->
  download_restored filename =
  if path_exists filename then stream_file filename
  else Raise (HTTPException 404 "file not found").
Proof.
  intros Habs. unfold download_restored. cbn [download_from].
  unfold path_join. rewrite Habs.
  now destruct (path_exists filename).
Qed.

End Downloads.

Lemma download_restored_lookup_order_witness :
  @download_restored toy_os "restored.png"
    = Ok {| stream_content := [1; 2; 3];
            stream_media_type := "application/octet-stream" |} /\
  @download_restored toy_os "report.png"
    = Ok {| stream_content := [7; 8];
            stream_media_type := "application/octet-stream" |} /\
  @download_restored toy_os "missing.png"
    = Raise (HTTPException 404 "file not found").
Proof.
  split; [| split].
  - destruct (download_restored_lookup_order (OL := toy_os) "restored.png")
      as (Htmp & _ & _); [reflexivity |].
    rewrite Htmp; reflexivity.
  - destruct (download_restored_lookup_order (OL := toy_os) "report.png")
      as (_ & Hcwd & _); [reflexivity |].
    rewrite Hcwd; reflexivity.
  - destruct (download_restored_lookup_order (OL := toy_os) "missing.png")
      as (_ & _ & Hnone); [reflexivity |].
    rewrite Hnone; reflexivity.
Defined.

Lemma download_restored_absolute_witness :
  @download_restored toy_os "/etc/passwd"
    = Ok {| stream_content := [9];
            stream_media_type := "application/octet-stream" |}.
Proof.
  rewrite (download_restored_absolute (OL := toy_os) "/etc/passwd");
    reflexivity.
Defined.

(** ** The outcomes on the sample uploads *)


Lemma decode_failure_handling_witness :
  @secure_image toy_image toy_hash garbage_file
    = Raise (ImageError "cannot identify image file") /\
  @authenticate_image toy_image toy_hash toy_base64 garbage_file
    = Raise (HTTPException 400
               "Invalid image bytes: cannot identify image file").
Proof.
  destruct (decode_failure_handling (IL := toy_image) (HL := toy_hash)
              (BL := toy_base64) garbage_file
              (ImageError "cannot identify image file")) as [Hsec Hauth].
  split.
  - apply Hsec; [apply Z.leb_le; vm_compute; reflexivity |].
    vm_compute. reflexivity.
  - apply Hauth; [apply Z.leb_le; vm_compute; reflexivity |].
    vm_compute. reflexivity.
Defined.

Lemma authenticate_small_array_raises_witness :
  800 <= Z.of_nat (length (file_data small_buffer)) /\
  (length (pixels small_arr) < 256)%nat /\
  @authenticate_image toy_image toy_hash toy_base64 small_buffer
    = Raise IndexError.
Proof.
  assert (Hlen : 800 <= Z.of_nat (length (file_data small_buffer)))
    by (apply Z.leb_le; vm_compute; reflexivity).
  assert (Hsmall : (length (pixels small_arr) < 256)%nat)
    by (apply Nat.ltb_lt; vm_compute; reflexivity).
  split; [exact Hlen | split; [exact Hsmall |]].
  apply (authenticate_small_array_raises (IL := toy_image) (HL := toy_hash)
           (BL := toy_base64) small_buffer small_arr "PNG" Hlen);
    [vm_compute; reflexivity | exact Hsmall].
Defined.

Lemma reported_percentage_range_witness :
  exists r : JSONResponse,
    @authenticate_image toy_image toy_hash toy_base64 tampered_sample = Ok r /\
    (0 <= authentication_percentage r)%Q /\
    (authentication_percentage r <= 100)%Q /\
    (authentic r = false -> (authentication_percentage r <= 9961 # 100)%Q).
Proof.
  eexists. split; [vm_compute; reflexivity |].
  apply (reported_percentage_range (IL := toy_image) (HL := toy_hash)
           (BL := toy_base64) tampered_sample).
  vm_compute. reflexivity.
Defined.

Lemma lsb_tampering_detected_witness :
  exists (trailer : list Z) (r : JSONResponse) (st : auth_state),
    pack_bits_to_bytes (pixel_lsb <$> take 256 (pixels sample_arr)) = Ok trailer /\
    @authenticate_image toy_image toy_hash toy_base64
      {| filename := "tampered.png";
         file_data :=
           toy_encode
             (reshape_as (zip_with embed_pixel (take 256 (pixels sample_arr))
                            sample_bits ++ drop 256 (pixels sample_arr))
                         sample_arr) "PNG" ++ trailer |} = Ok r /\
    restored_arr st = sample_arr /\
    embedded_bits st = sample_bits /\
    (authentic r = true <->
     sample_bits =
     unpack_bytes_to_bits (@sha256_digest toy_hash (tobytes sample_arr))
                          (Some HASH_BITS)).
Proof.
  assert (Hpre : exists trailer : list Z,
            pack_bits_to_bytes (pixel_lsb <$> take 256 (pixels sample_arr))
              = Ok trailer /\
            800 <= Z.of_nat (length
              (toy_encode
                 (reshape_as (zip_with embed_pixel (take 256 (pixels sample_arr))
                                sample_bits ++ drop 256 (pixels sample_arr))
                             sample_arr) "PNG" ++ trailer))).
  { eexists. split; [vm_compute; reflexivity |].
    apply Z.leb_le. vm_compute. reflexivity. }
  destruct Hpre as (trailer & Hpack & Hsize).
  destruct (lsb_tampering_detected (IL := toy_image) (HL := toy_hash)
              (BL := toy_base64) (LL := toy_lossless)
              sample_arr "PNG" "tampered.png" trailer sample_bits)
    as (r & st & Hrun & _ & Hrestored & Hheld & _ & Hauth).
  - apply (bool_decide_unpack _). vm_compute. exact I.
  - apply Nat.leb_le. vm_compute. reflexivity.
  - exact Hpack.
  - reflexivity.
  - apply (bool_decide_unpack _). vm_compute. exact I.
  - exact Hsize.
  - exists trailer, r, st. repeat split; try assumption; apply Hauth.
Defined.

(** ** The verdict of [authenticate_image] in closed form *)

Section Verdict.
Context {IL : ImageLib} {HL : HashLib} {BL : Base64Lib}.

(** X16. What [authenticate_image] checks, for any buffer it accepts.
    Let the array be the one decoded from the buffer without its last 32
    bytes, the trailer bits the 256 bits unpacked from those 32 bytes, and
    the restored array the decoded one with the LSBs of its first 256
    pixels overwritten by the trailer bits. Then [authentic] holds exactly
    when the digest bits of the restored array are the LSBs the decoded
    array had in its first 256 pixels, and the image returned is the
    encoding of the restored array. The trailer itself is trusted: it is
    not covered by any check. *)
Theorem authenticate_verdict (file : UploadFile) (r : JSONResponse) :
  authenticate_image file = Ok r ->
  exists (arr : ndarray) (fmt : string),
    let trailer_bits :=
      unpack_bytes_to_bits (slice_from (- APPENDED_BYTES) (file_data file))
                           (Some HASH_BITS) in
    let restored :=
      reshape_as (zip_with embed_pixel (take 256 (pixels arr)) trailer_bits
                  ++ drop 256 (pixels arr)) arr in
    image_bytes_to_rgb_array (slice_to (- APPENDED_BYTES) (file_data file))
      = Ok (arr, fmt) /\
    length trailer_bits = 256%nat /\
    (authentic r = true <->
     unpack_bytes_to_bits (sha256_digest (tobytes restored)) (Some HASH_BITS)
     = pixel_lsb <$> take 256 (pixels arr)) /\
    restored_image_b64 r = b64encode (rgb_array_to_image_bytes restored fmt) /\
    (message r = "Image authentic (untampered)."%string <-> authentic r = true).
Proof.
  intros Hrun.
  destruct (authenticate_image_Ok_inv file r Hrun) as (st & Hst & -> & _ & _).
  destruct (authenticate_state_Ok_inv file st Hst)
    as (arr & Hmin & Hdec & Hf & Hemb & Hres & Hcomp).
  cbv zeta in Hres. exists arr, (restored_fmt st). cbv zeta.
  split; [exact Hdec |].
  split; [apply unpack_256_of_32, slice_from_length; lia |].
  unfold auth_response. cbn [authentic restored_image_b64 message].
  split; [rewrite bool_decide_eq_true, Hcomp, Hemb, Hres; reflexivity |].
  split; [rewrite Hres; reflexivity |].
  destruct (bool_decide (computed_bits st = embedded_bits st));
    split; intros H; try reflexivity; discriminate H.
Qed.

End Verdict.

Lemma authenticate_verdict_witness :
  exists (r : JSONResponse) (arr : ndarray) (fmt : string),
    let trailer_bits :=
      unpack_bytes_to_bits (slice_from (- APPENDED_BYTES) (file_data tampered_sample))
                           (Some HASH_BITS) in
    let restored :=
      reshape_as (zip_with embed_pixel (take 256 (pixels arr)) trailer_bits
                  ++ drop 256 (pixels arr)) arr in
    @authenticate_image toy_image toy_hash toy_base64 tampered_sample = Ok r /\
    toy_decode (slice_to (- APPENDED_BYTES) (file_data tampered_sample))
      = Ok (arr, fmt) /\
    length trailer_bits = 256%nat /\
    (authentic r = true <->
     unpack_bytes_to_bits (@sha256_digest toy_hash (tobytes restored))
                          (Some HASH_BITS)
     = pixel_lsb <$> take 256 (pixels arr)) /\
    restored_image_b64 r
      = @b64encode toy_base64 (toy_encode restored fmt) /\
    (message r = "Image authentic (untampered)."%string <-> authentic r = true).
Proof.
  assert (Hrun : exists r : JSONResponse,
            @authenticate_image toy_image toy_hash toy_base64 tampered_sample
            = Ok r)
    by (eexists; vm_compute; reflexivity).
  destruct Hrun as [r Hrun].
  destruct (authenticate_verdict (IL := toy_image) (HL := toy_hash)
              (BL := toy_base64) tampered_sample r Hrun)
    as (arr & fmt & Hdec & Hlen & Hauth & Himg & Hmsg).
  exists r, arr, fmt. cbv zeta.
  split; [exact Hrun |]. split; [exact Hdec |]. split; [exact Hlen |].
  split; [exact Hauth |]. split; [exact Himg | exact Hmsg].
Defined.
